(** * google-fonts-plugin: a shallow embedding of [src/index.js]

    The class [GoogleFontsWebpackPlugin] is embedded method by method,
    under the names of the source.  JavaScript strings are [string]s of
    8-bit code units.  The cache directory is a [gmap] from file paths
    to file contents, and every effect (a look at the disk, a read, a
    write, an HTTP GET) goes through an explicit [World] that also
    records the events in the order they happen.  An [async] method is
    split where it awaits the network: the part that runs when it is
    called, and the part that runs when the answer arrives; the order
    in which answers arrive is a parameter, the [schedule].
    Configuration values are JavaScript values whose objects list their
    fields in key order, and [this.options], which is only ever read by
    key, is a [gmap]. *)

From Stdlib Require Import ZArith Ascii Lia Bool.
From Stdlib Require String.
From stdpp Require Import base option list strings gmap pretty.

Local Open Scope Z_scope.

(** * Definitions *)

(** ** SHA-1, as computed by [crypto.createHash('sha1')] (FIPS 180-4)

    [update] hashes the UTF-8 encoding of its argument; for the ASCII
    text of a request URL that is the text itself. *)

Module SHA1.

Definition mask32 : Z := 4294967295.

Definition add32 (x y : Z) : Z := Z.land (x + y) mask32.

Definition rotl32 (n : Z) (x : Z) : Z :=
  Z.land (Z.lor (Z.shiftl x n) (Z.shiftr x (32 - n))) mask32.

Definition not32 (x : Z) : Z := Z.lxor x mask32.

Definition byte_of_ascii (c : ascii) : Z := Z.of_N (N_of_ascii c).

(** [update(s)] hashes the UTF-8 encoding of the text: a code unit
    below 128 is one byte, a code unit from 128 to 255 is two. *)
Fixpoint bytes_of_string (s : string) : list Z :=
  match s with
  | EmptyString => []
  | String c s' =>
      let x := byte_of_ascii c in
      if x <? 128 then x :: bytes_of_string s'
      else Z.lor 192 (Z.shiftr x 6) :: Z.lor 128 (Z.land x 63) :: bytes_of_string s'
  end.

(** Big-endian encoding of [x] on [n] bytes. *)
Fixpoint be_bytes (n : nat) (x : Z) : list Z :=
  match n with
  | O => []
  | S k => Z.land (Z.shiftr x (8 * Z.of_nat k)) 255 :: be_bytes k x
  end.

(** Message padding: a single 1 bit, zeros up to 56 mod 64, then the
    bit length of the message on 64 bits. *)
Definition pad (msg : list Z) : list Z :=
  let len := Z.of_nat (length msg) in
  let zeros := Z.to_nat ((55 - len) mod 64) in
  msg ++ 128 :: replicate zeros 0 ++ be_bytes 8 (8 * len).

Fixpoint words_go (k : nat) (cur : Z) (bs : list Z) : list Z :=
  match bs with
  | [] => []
  | b :: bs' =>
      let cur' := Z.lor (Z.shiftl cur 8) b in
      match k with
      | O => cur' :: words_go 3 0 bs'
      | S k' => words_go k' cur' bs'
      end
  end.

(** The padded message as big-endian 32-bit words. *)
Definition words_of_bytes (bs : list Z) : list Z := words_go 3 0 bs.

Fixpoint blocks_go (k : nat) (cur : list Z) (ws : list Z) : list (list Z) :=
  match ws with
  | [] => []
  | w :: ws' =>
      match k with
      | O => rev (w :: cur) :: blocks_go 15 [] ws'
      | S k' => blocks_go k' (w :: cur) ws'
      end
  end.

(** Sixteen-word blocks. *)
Definition blocks_of_words (ws : list Z) : list (list Z) := blocks_go 15 [] ws.

(** Message schedule; [recent] holds the words computed so far, the
    latest first. *)
Fixpoint extend (n : nat) (recent : list Z) : list Z :=
  match n with
  | O => recent
  | S k =>
      let w := rotl32 1 (Z.lxor (Z.lxor (nth 2 recent 0) (nth 7 recent 0))
                                (Z.lxor (nth 13 recent 0) (nth 15 recent 0))) in
      extend k (w :: recent)
  end.

Definition schedule (block : list Z) : list Z := rev (extend 64 (rev block)).

Definition round_f (i : nat) (b c d : Z) : Z :=
  if (i <? 20)%nat then Z.lor (Z.land b c) (Z.land (not32 b) d)
  else if (i <? 40)%nat then Z.lxor (Z.lxor b c) d
  else if (i <? 60)%nat then Z.lor (Z.lor (Z.land b c) (Z.land b d)) (Z.land c d)
  else Z.lxor (Z.lxor b c) d.

Definition round_k (i : nat) : Z :=
  if (i <? 20)%nat then 1518500249
  else if (i <? 40)%nat then 1859775393
  else if (i <? 60)%nat then 2400959708
  else 3395469782.

Record state := State { h0 : Z; h1 : Z; h2 : Z; h3 : Z; h4 : Z }.

Definition init : state :=
  State 1732584193 4023233417 2562383102 271733878 3285377520.

Fixpoint rounds (i : nat) (ws : list Z) (st : state) : state :=
  match ws with
  | [] => st
  | w :: ws' =>
      let '(State a b c d e) := st in
      let t := add32 (add32 (add32 (add32 (rotl32 5 a) (round_f i b c d)) e)
                            (round_k i)) w in
      rounds (S i) ws' (State t a (rotl32 30 b) c d)
  end.

Definition compress (st : state) (block : list Z) : state :=
  let '(State a b c d e) := rounds 0 (schedule block) st in
  State (add32 (h0 st) a) (add32 (h1 st) b) (add32 (h2 st) c)
        (add32 (h3 st) d) (add32 (h4 st) e).

Definition digest (s : string) : state :=
  fold_left compress (blocks_of_words (words_of_bytes (pad (bytes_of_string s)))) init.

Definition hex_digit (x : Z) : ascii :=
  if x <? 10 then ascii_of_N (Z.to_N (48 + x)) else ascii_of_N (Z.to_N (87 + x)).

(** [n] lowercase hexadecimal digits of [x], most significant first. *)
Fixpoint hex (n : nat) (x : Z) : string :=
  match n with
  | O => EmptyString
  | S k => String (hex_digit (Z.land (Z.shiftr x (4 * Z.of_nat k)) 15)) (hex k x)
  end.

(** [createHash('sha1').update(s).digest('hex')]. *)
Definition sha1_hex (s : string) : string :=
  let st := digest s in
  hex 8 (h0 st) +:+ hex 8 (h1 st) +:+ hex 8 (h2 st) +:+ hex 8 (h3 st) +:+ hex 8 (h4 st).

End SHA1.

Local Close Scope Z_scope.

(** ** JavaScript string primitives used by the plugin *)

Definition dquote : ascii := "034"%char.
Definition dollar : ascii := "$"%char.

Fixpoint take (n : nat) (s : string) : string :=
  match n, s with
  | S k, String c s' => String c (take k s')
  | _, _ => EmptyString
  end.

Fixpoint drop (n : nat) (s : string) : string :=
  match n, s with
  | S k, String _ s' => drop k s'
  | _, _ => s
  end.

(** [s.startsWith(p)] *)
Fixpoint startsWith (s p : string) {struct p} : bool :=
  match p, s with
  | EmptyString, _ => true
  | String a p', String b s' => if decide (a = b) then startsWith s' p' else false
  | String _ _, EmptyString => false
  end.

(** [s.indexOf(pat)]: position of the leftmost occurrence. *)
Fixpoint indexOf (pat s : string) : option nat :=
  if startsWith s pat then Some 0
  else match s with
       | EmptyString => None
       | String _ s' => S <$> indexOf pat s'
       end.

(** [included c s]: the code unit [c] occurs in [s]. *)
Fixpoint included (c : ascii) (s : string) : bool :=
  match s with
  | EmptyString => false
  | String a s' => if decide (a = c) then true else included c s'
  end.

(** [parts.join(sep)] *)
Fixpoint join (sep : string) (parts : list string) : string :=
  match parts with
  | [] => EmptyString
  | [p] => p
  | p :: rest => p +:+ sep +:+ join sep rest
  end.

(** The replacement-text expansion (ECMAScript [GetSubstitution]) for a
    string pattern, which has no capture groups: [$$] is a dollar sign,
    [$&] the matched text, [$`] the text before the match and [$'] the
    text after it; every other use of [$] stands for itself. *)
Fixpoint GetSubstitution (matched before after replacement : string) : string :=
  match replacement with
  | EmptyString => EmptyString
  | String c r =>
      if decide (c = dollar) then
        match r with
        | String d r' =>
            if decide (d = dollar) then
              String dollar (GetSubstitution matched before after r')
            else if decide (d = "&"%char) then
              matched +:+ GetSubstitution matched before after r'
            else if decide (d = "`"%char) then
              before +:+ GetSubstitution matched before after r'
            else if decide (d = "'"%char) then
              after +:+ GetSubstitution matched before after r'
            else String c (GetSubstitution matched before after r)
        | EmptyString => String c EmptyString
        end
      else String c (GetSubstitution matched before after r)
  end.

(** [s.replace(pat, replacement)] with a string pattern: only the
    leftmost occurrence of [pat] is replaced. *)
Definition replace (s pat replacement : string) : string :=
  match indexOf pat s with
  | None => s
  | Some pos =>
      let before := take pos s in
      let after := drop (pos + String.length pat) s in
      before +:+ GetSubstitution pat before after replacement +:+ after
  end.

(** [/\s/gi] replaced by [+] (code units below 256). *)
Definition is_whitespace (c : ascii) : bool :=
  match nat_of_ascii c with
  | 9 | 10 | 11 | 12 | 13 | 32 | 160 => true
  | _ => false
  end.

Fixpoint replace_whitespace (s : string) : string :=
  match s with
  | EmptyString => EmptyString
  | String c s' =>
      String (if is_whitespace c then "+"%char else c) (replace_whitespace s')
  end.

(** ** The regular expression [/url\((.+?)\)/gi] *)

Module UrlRegex.

(** The dot matches every code unit but a line terminator. *)
Definition is_line_terminator (c : ascii) : bool :=
  match nat_of_ascii c with
  | 10 | 13 => true
  | _ => false
  end.

Definition eq_ci (lower upper c : ascii) : bool :=
  bool_decide (c = lower) || bool_decide (c = upper).

(** [url\(], ignoring case: the text that follows it. *)
Definition after_url_paren (s : string) : option string :=
  match s with
  | String a (String b (String c (String d rest))) =>
      if eq_ci "u" "U" a && eq_ci "r" "R" b && eq_ci "l" "L" c && bool_decide (d = "("%char)
      then Some rest else None
  | _ => None
  end.

(** The lazy tail of [.+?] followed by [\)]: the code units before the
    first closing parenthesis, none of them a line terminator. *)
Fixpoint lazy_tail (s : string) : option string :=
  match s with
  | EmptyString => None
  | String c s' =>
      if bool_decide (c = ")"%char) then Some EmptyString
      else if is_line_terminator c then None
      else String c <$> lazy_tail s'
  end.

(** The expression anchored at the start of [s]: capture group 1. *)
Definition match_here (s : string) : option string :=
  match after_url_paren s with
  | Some (String c rest) =>
      if is_line_terminator c then None else String c <$> lazy_tail rest
  | _ => None
  end.

Inductive Token :=
| Lit (c : ascii)
| Hit (whole capture : string).

(** A left-to-right global scan.  [skip] counts the code units of the
    current match still to be passed over. *)
Fixpoint scan (skip : nat) (s : string) : list Token :=
  match s with
  | EmptyString => []
  | String c s' =>
      match skip with
      | S k => scan k s'
      | O =>
          match match_here s with
          | Some cap =>
              Hit (take (5 + String.length cap) s) cap
                :: scan (4 + String.length cap) s'
          | None => Lit c :: scan 0 s'
          end
      end
  end.

Fixpoint wholes (ts : list Token) : list string :=
  match ts with
  | [] => []
  | Lit _ :: ts' => wholes ts'
  | Hit whole _ :: ts' => whole :: wholes ts'
  end.

(** [s.match(regex)]: every matched substring, or [null]. *)
Definition str_match (s : string) : option (list string) :=
  match wholes (scan 0 s) with
  | [] => None
  | ms => Some ms
  end.

Fixpoint captures_text (ts : list Token) : string :=
  match ts with
  | [] => EmptyString
  | Lit c :: ts' => String c (captures_text ts')
  | Hit _ cap :: ts' => cap +:+ captures_text ts'
  end.

(** [s.replace(regex, '$1')]: every match replaced by its capture. *)
Definition replace_by_capture (s : string) : string :=
  captures_text (scan 0 s).

(** Capture group 1 of every match. *)
Fixpoint captures (ts : list Token) : list string :=
  match ts with
  | [] => []
  | Lit _ :: ts' => captures ts'
  | Hit _ cap :: ts' => cap :: captures ts'
  end.

End UrlRegex.

(** ** Base64, as produced by [Buffer.from(font, 'binary').toString('base64')] *)

Module Base64.

Definition alphabet : string :=
  "ABCDEFGHIJKLMNOPQRSTUVWXYZabcdefghijklmnopqrstuvwxyz0123456789+/".

Definition digit (n : nat) : ascii :=
  match String.get n alphabet with
  | Some c => c
  | None => "="%char
  end.

Definition sextets (a b c : nat) : nat * nat * nat * nat :=
  (a / 4, (a mod 4) * 16 + b / 16, (b mod 16) * 4 + c / 64, c mod 64).

Fixpoint encode (s : string) : string :=
  match s with
  | EmptyString => EmptyString
  | String a EmptyString =>
      let '(p, q, _, _) := sextets (nat_of_ascii a) 0 0 in
      String (digit p) (String (digit q) "==")
  | String a (String b EmptyString) =>
      let '(p, q, r, _) := sextets (nat_of_ascii a) (nat_of_ascii b) 0 in
      String (digit p) (String (digit q) (String (digit r) "="))
  | String a (String b (String c rest)) =>
      let '(p, q, r, t) := sextets (nat_of_ascii a) (nat_of_ascii b) (nat_of_ascii c) in
      String (digit p) (String (digit q) (String (digit r) (String (digit t) (encode rest))))
  end.

End Base64.

(** ** Resolved plugin options, as the operations read them *)

(** One entry of [options.fonts].  A field that is absent in the
    configuration ([undefined]) is [None]. *)
Record FontDescriptor := {
  family : option string;
  variants : option (list string);
  subsets : option (list string)
}.

Record Options := {
  fonts : list FontDescriptor;
  formats : list string;
  formatAgents : gmap string string;
  chunkName : string;
  encode : bool;
  cache : bool
}.

(** ** Exceptions and promises *)

Inductive Exn :=
| NullProperty (prop : string)   (** TypeError: property [prop] read on [null] *)
| InvalidArgType (fn : string)   (** TypeError raised by the library function [fn] for a [null] argument *)
| ENOENT (path : string)         (** [fs.readFileSync] on a path that does not exist *)
| SyntaxError (parser : string)  (** [JSON.parse] or [neon.decode] on ill-formed text *)
| RequestFailed (url : string).  (** the promise returned by [axios] rejects *)

(** An HTTP request that has been issued and not yet answered, with what
    the suspended caller does with the answer: the cache file to write,
    and the format of the data URI to build when the caller is
    [requestFontFile]. *)
Record Request := {
  rq_url : string;
  rq_agent : option string;
  rq_key : string;
  rq_wrap : option string
}.

Inductive Promise :=
| Fulfilled (value : string)
| Rejected (e : Exn)
| Pending (rq : Request).

(** What the caller of an [async] function observes. *)
Inductive Outcome (A : Type) :=
| Returned (a : A)
| Threw (e : Exn)
| Hung.
Arguments Returned {A} a.
Arguments Threw {A} e.
Arguments Hung {A}.

(** ** The outside world *)

Inductive Event :=
| FsExists (file : string)
| FsRead (file : string)
| FsWrite (file contents : string)
| HttpGet (url : string) (agent : option string).

Record World := {
  disk : gmap string string;
  trace : list Event
}.

Definition log (e : Event) (w : World) : World :=
  {| disk := disk w; trace := trace w ++ [e] |}.

(** The remote service: the body served for a URL and a [User-Agent]
    header, or [None] when the request fails. *)
Definition Network := string → option string → option string.

(** ** Cache *)

(** [getCacheKey] *)
Definition getCacheKey (requestUrl format : string) : string :=
  let hashedUrl := SHA1.sha1_hex requestUrl in
  format +:+ "-" +:+ hashedUrl.

(** The directory answered by [findCacheDir] for the plugin's name. *)
Definition cacheDir : string := "node_modules/.cache/google-fonts-plugin".

(** The thunk of [findCacheDir]: the file of a key. *)
Definition cacheFile (key : string) : string := cacheDir +:+ "/" +:+ key.

(** [getFromCache] *)
Definition getFromCache (key : string) (w : World) : World * option string :=
  let file := cacheFile key in
  let w1 := log (FsExists file) w in
  match disk w !! file with
  | Some contents => (log (FsRead file) w1, Some contents)
  | None => (w1, None)
  end.

(** [saveToCache] *)
Definition saveToCache (key contents : string) (w : World) : World :=
  let file := cacheFile key in
  {| disk := <[file := contents]> (disk w);
     trace := trace w ++ [FsWrite file contents] |}.

(** ** Fonts *)

(** JavaScript truthiness of a value that is a string or [undefined]. *)
Definition truthy_string (v : option string) : bool :=
  match v with
  | Some (String _ _) => true
  | _ => false
  end.

Definition createRequestString (item : FontDescriptor) : option string :=
  match family item with
  | Some (String c f) =>
      let requestString :=
        "https://fonts.googleapis.com/css?family=" +:+ replace_whitespace (String c f) in
      let requestString :=
        match variants item with
        | Some vs => requestString +:+ ":" +:+ join "," vs
        | None => requestString
        end in
      let requestString :=
        match subsets item with
        | Some ss => requestString +:+ "&subset=" +:+ join "," ss
        | None => requestString
        end in
      Some requestString
  | _ => None
  end.

(** [createRequestStrings]: [None] stands for the [null] entry. *)
Definition createRequestStrings (o : Options) : list (option string) :=
  map createRequestString (fonts o).

(** The data URI built by [requestFontFile]. *)
Definition dataUri (format font : string) : string :=
  String dquote ("data:application/x-font-" +:+ format +:+ ";base64,"
                 +:+ Base64.encode font +:+ String dquote EmptyString).

Definition finish (wrap : option string) (response : string) : string :=
  match wrap with
  | Some format => dataUri format response
  | None => response
  end.

(** [requestFont], up to its [await]: the cache is consulted and, on a
    miss, the request is issued.  A cached file that is empty reads as
    the empty string, which [!response] treats as a miss.  The
    [encoding] parameter is left out: a body is kept as the bytes that
    were sent and stored, whatever text they are read back as.  The
    request is logged where the call is made; the client may send it
    later, and sends the requests of several calls in the order of the
    calls. *)
Definition requestFont_start (o : Options) (requestString : option string)
    (format : string) (wrap : option string) (w : World) : World * Promise :=
  match requestString with
  | None => (w, Rejected (InvalidArgType "Hash.update"))
  | Some url =>
      let cacheKey := getCacheKey url format in
      let '(w1, response) :=
        if cache o then getFromCache cacheKey w else (w, None) in
      match response with
      | Some (String c r) => (w1, Fulfilled (finish wrap (String c r)))
      | _ =>
          let agent := formatAgents o !! format in
          (log (HttpGet url agent) w1,
           Pending {| rq_url := url; rq_agent := agent;
                      rq_key := cacheKey; rq_wrap := wrap |})
      end
  end.

(** [requestFont], after its [await]: the answer arrives. *)
Definition requestFont_resume (net : Network) (rq : Request) (w : World)
    : World * Promise :=
  match net (rq_url rq) (rq_agent rq) with
  | None => (w, Rejected (RequestFailed (rq_url rq)))
  | Some response =>
      (saveToCache (rq_key rq) response w, Fulfilled (finish (rq_wrap rq) response))
  end.

(** The event loop: the answers to the pending requests arrive in the
    order [schedule] (positions in the list of promises).  A position
    that is not pending is passed over. *)
Fixpoint deliver (net : Network) (schedule : list nat) (ps : list Promise)
    (w : World) : World * list Promise :=
  match schedule with
  | [] => (w, ps)
  | i :: schedule' =>
      match ps !! i with
      | Some (Pending rq) =>
          let '(w1, p) := requestFont_resume net rq w in
          deliver net schedule' (<[i := p]> ps) w1
      | _ => deliver net schedule' ps w
      end
  end.

(** [for (const promise of promises) results.push(await promise)] *)
Fixpoint await_each (ps : list Promise) : Outcome (list string) :=
  match ps with
  | [] => Returned []
  | Fulfilled v :: ps' =>
      match await_each ps' with
      | Returned vs => Returned (v :: vs)
      | Threw e => Threw e
      | Hung => Hung
      end
  | Rejected e :: _ => Threw e
  | Pending _ :: _ => Hung
  end.

(** Calling an [async] function on every element in turn: each call runs
    up to its first [await] before the next one starts. *)
Fixpoint start_each {A} (start : A → World → World * Promise) (xs : list A)
    (w : World) : World * list Promise :=
  match xs with
  | [] => (w, [])
  | x :: xs' =>
      let '(w1, p) := start x w in
      let '(w2, ps) := start_each start xs' w1 in
      (w2, p :: ps)
  end.

Definition outcome_of (p : Promise) : Outcome string :=
  match p with
  | Fulfilled v => Returned v
  | Rejected e => Threw e
  | Pending _ => Hung
  end.

(** [await] on a call that has been started and is the only one in
    flight: its answer, if it waits for one, arrives next. *)
Definition await_one (net : Network) (started : World * Promise)
    : World * Outcome string :=
  match started with
  | (w1, Pending rq) =>
      let '(w2, p) := requestFont_resume net rq w1 in (w2, outcome_of p)
  | (w1, p) => (w1, outcome_of p)
  end.

(** [await this.requestFont(requestString, format, encoding)] *)
Definition requestFont (net : Network) (o : Options) (requestString : option string)
    (format : string) (w : World) : World * Outcome string :=
  await_one net (requestFont_start o requestString format None w).

(** [for (const promise of xs.map(start)) results.push(await promise)]:
    every call is started, the answers arrive, and the promises are
    awaited in the order of [xs]. *)
Definition for_await {A} (net : Network) (schedule : list nat)
    (start : A → World → World * Promise) (xs : list A) (w : World)
    : World * Outcome (list string) :=
  let '(w1, promises) := start_each start xs w in
  let '(w2, settled) := deliver net schedule promises w1 in
  (w2, await_each settled).

(** [requestFontsCSS] *)
Definition requestFontsCSS (net : Network) (schedule : list nat) (o : Options)
    (format : string) (w : World) : World * Outcome string :=
  match for_await net schedule
          (λ requestString, requestFont_start o requestString format None)
          (createRequestStrings o) w with
  | (w1, Returned results) => (w1, Returned (join "" results))
  | (w1, Threw e) => (w1, Threw e)
  | (w1, Hung) => (w1, Hung)
  end.

(** The alternatives of the expression built from [options.formats]
    joined with a bar; joining no format gives the empty alternative.
    Format names are taken literally, which is how the expression reads
    a name that holds no character with a meaning of its own there
    ([plain_name] below); what the expression does with other names is
    not modelled, and the statements that name the inferred format
    assume plain names. *)
Definition alternatives (fs : list string) : list string :=
  match fs with
  | [] => [EmptyString]
  | _ => fs
  end.

(** [fontUrl.match(new RegExp('(' + alternatives + ')$'))]: the leftmost
    position from which an alternative reaches the end of the text. *)
Fixpoint match_suffix (alts : list string) (s : string) : option string :=
  if bool_decide (s ∈ alts) then Some s
  else match s with
       | EmptyString => None
       | String _ s' => match_suffix alts s'
       end.

Definition data_prefix : string := String dquote "data:application/".

(** [requestFontFile], up to its first [await]. *)
Definition requestFontFile_start (o : Options) (fontUrl : string) (w : World)
    : World * Promise :=
  if startsWith fontUrl data_prefix then (w, Fulfilled fontUrl)
  else
    match match_suffix (alternatives (formats o)) fontUrl with
    | None => (w, Rejected (NullProperty "1"))
    | Some format => requestFont_start o (Some fontUrl) format (Some format) w
    end.

(** [await this.requestFontFile(fontUrl)] *)
Definition requestFontFile (net : Network) (o : Options) (fontUrl : string)
    (w : World) : World * Outcome string :=
  await_one net (requestFontFile_start o fontUrl w).

(** [requestFontFiles] *)
Definition requestFontFiles (net : Network) (schedule : list nat) (o : Options)
    (fontUrls : list string) (w : World) : World * Outcome (list string) :=
  for_await net schedule (requestFontFile_start o) fontUrls w.

(** The [forEach] of [encodeFonts]: reference [index] is replaced by
    font [index]. *)
Fixpoint replace_each (css : string) (fontUrls fontsEncoded : list string) : string :=
  match fontsEncoded, fontUrls with
  | font :: fonts', fontUrl :: urls' => replace_each (replace css fontUrl font) urls' fonts'
  | _, _ => css
  end.

(** [encodeFonts] *)
Definition encodeFonts (net : Network) (schedule : list nat) (o : Options)
    (css : string) (w : World) : World * Outcome string :=
  if encode o then
    match UrlRegex.str_match css with
    | None => (w, Threw (NullProperty "map"))
    | Some matches =>
        let fontUrls := map UrlRegex.replace_by_capture matches in
        match requestFontFiles net schedule o fontUrls w with
        | (w1, Returned fontsEncoded) =>
            (w1, Returned (replace_each css fontUrls fontsEncoded))
        | (w1, Threw e) => (w1, Threw e)
        | (w1, Hung) => (w1, Hung)
        end
    end
  else (w, Returned css).

(** ** Configuration values and the constructor *)

(** A JavaScript value as configuration holds it.  The fields of an
    object are listed in the order of [Object.keys]. *)
#[warnings="-register-all"] Inductive JsValue :=
| JUndefined
| JNull
| JBool (b : bool)
| JNum (n : Z)
| JStr (s : string)
| JArr (items : list JsValue)
| JObj (fields : list (string * JsValue)).

Inductive JsType := TObject | TString | TOther.

(** [typeof v], as far as the constructors tell cases apart. *)
Definition typeof (v : JsValue) : JsType :=
  match v with
  | JNull | JArr _ | JObj _ => TObject
  | JStr _ => TString
  | _ => TOther
  end.

(** [if (v)] *)
Definition truthy (v : JsValue) : bool :=
  match v with
  | JUndefined | JNull | JBool false | JNum Z0 | JStr EmptyString => false
  | _ => true
  end.

Fixpoint chars (s : string) : list JsValue :=
  match s with
  | EmptyString => []
  | String c s' => JStr (String c EmptyString) :: chars s'
  end.

(** The own enumerable properties of a value, in the order of
    [Object.keys]: the fields of an object, the indices of an array or
    of a string, nothing for the other primitives. *)
Definition own_entries (v : JsValue) : list (string * JsValue) :=
  match v with
  | JObj fields => fields
  | JArr items => imap (fun i x => (pretty i, x)) items
  | JStr s => imap (fun i x => (pretty i, x)) (chars s)
  | _ => []
  end.

(** [v[key]] for an own property; of two fields with one name the later
    one counts. *)
Definition own_property (v : JsValue) (key : string) : option JsValue :=
  fold_left (fun found kv => if decide (kv.1 = key) then Some kv.2 else found)
            (own_entries v) None.

(** [Object.assign(target, ...sources)]: every own property of every
    source is written to the target, the later write winning. *)
Definition assign_entry (target : gmap string JsValue) (kv : string * JsValue)
    : gmap string JsValue :=
  <[kv.1 := kv.2]> target.

Definition assign_source (target : gmap string JsValue) (source : JsValue)
    : gmap string JsValue :=
  fold_left assign_entry (own_entries source) target.

Definition Object_assign (target : gmap string JsValue) (sources : list JsValue)
    : gmap string JsValue :=
  fold_left assign_source sources target.

Definition pluginName : string := "google-fonts-plugin".

Definition strs (l : list string) : JsValue := JArr (map JStr l).

Definition agent_eot : string :=
  "Mozilla/4.0 (compatible; MSIE 8.0; Windows NT 6.1; WOW64; Trident/4.0; SLCC2; .NET CLR 2.0.50727; .NET CLR 3.5.30729; .NET CLR 3.0.30729; .NET4.0C; .NET4.0E)".
Definition agent_ttf : string :=
  "Mozilla/5.0 (Macintosh; Intel Mac OS X 10_6_8) AppleWebKit/534.59.8 (KHTML, like Gecko) Version/5.1.9 Safari/534.59.8".
Definition agent_woff : string :=
  "Mozilla/5.0 (Windows NT 10.0; WOW64; Trident/7.0; .NET4.0C; .NET4.0E; .NET CLR 2.0.50727; .NET CLR 3.0.30729; .NET CLR 3.5.30729; rv:11.0) like Gecko".
Definition agent_woff2 : string :=
  "Mozilla/5.0 (Windows NT 10.0; Win64; x64; ServiceUI 8) AppleWebKit/537.36 (KHTML, like Gecko) Chrome/51.0.2704.79 Safari/537.36 Edge/14.14393".

Definition defaultFormatAgents : JsValue :=
  JObj [("eot", JStr agent_eot); ("ttf", JStr agent_ttf);
        ("woff", JStr agent_woff); ("woff2", JStr agent_woff2)].

(** [GoogleFontsWebpackPlugin.defaultOptions] *)
Definition defaultOptions : JsValue :=
  JObj [("fonts", JArr [JObj [("family", JStr "Roboto");
                              ("variants", strs ["400"; "400i"; "700"; "700i"]);
                              ("subsets", strs ["latin"; "latin-ext"])]]);
        ("formats", strs ["eot"; "ttf"; "woff"; "woff2"]);
        ("formatAgents", defaultFormatAgents);
        ("chunkName", JStr "google-fonts");
        ("encode", JBool true);
        ("cache", JBool true)].

(** [v instanceof Object && Object.keys(v).length !== 0] *)
Definition is_nonempty_object (v : JsValue) : bool :=
  match v with
  | JObj (_ :: _) | JArr (_ :: _) => true
  | _ => false
  end.

(** [getConfig]: the depth-first search for the key named after the
    plugin.  The keys of an array are its indices, which never are that
    name. *)
Fixpoint getConfig (options : JsValue) : JsValue :=
  match options with
  | JObj fields =>
      (fix each (fs : list (string * JsValue)) : JsValue :=
         match fs with
         | [] => JUndefined
         | (key, v) :: fs' =>
             if decide (key = pluginName) then v
             else if is_nonempty_object v then
               let result := getConfig v in
               if truthy result then result else each fs'
             else each fs'
         end) fields
  | JArr items =>
      (fix each (vs : list JsValue) : JsValue :=
         match vs with
         | [] => JUndefined
         | v :: vs' =>
             if is_nonempty_object v then
               let result := getConfig v in
               if truthy result then result else each vs'
             else each vs'
         end) items
  | _ => JUndefined
  end.

(** [this.getConfig(fileOptions)] on what a parser returned:
    [Object.keys] throws on [null] and [undefined]. *)
Definition getConfig_of (fileOptions : JsValue) : Exn + JsValue :=
  match fileOptions with
  | JNull | JUndefined => inl (InvalidArgType "Object.keys")
  | _ => inr (getConfig fileOptions)
  end.

(** The file system and the parsers the constructor calls. *)
Record Env := {
  readFile : string → option string;     (** [fs.readFileSync(path, 'utf8')] *)
  JSON_parse : string → option JsValue;  (** [None]: the text is not JSON *)
  neon_decode : string → option JsValue; (** [None]: the text is not NEON *)
  pkgUp_sync : option string             (** the nearest [package.json], if any *)
}.

(** [file.replace(/\r\n/g, '\n')] *)
Fixpoint replace_crlf (s : string) : string :=
  match s with
  | String "013" (String "010" s') => String "010" (replace_crlf s')
  | String c s' => String c (replace_crlf s')
  | EmptyString => EmptyString
  end.

(** [/\.neon$/.test(path)] *)
Definition is_neon (path : string) : bool :=
  bool_decide (drop (String.length path - 5) path = ".neon").

Definition readFileSync (env : Env) (path : string) : Exn + string :=
  match readFile env path with
  | Some file => inr file
  | None => inl (ENOENT path)
  end.

Definition parse_with (parser : string) (parse : string → option JsValue)
    (file : string) : Exn + JsValue :=
  match parse file with
  | Some v => inr v
  | None => inl (SyntaxError parser)
  end.

(** Statements in sequence, the first exception thrown ending them. *)
Definition and_then {A B} (m : Exn + A) (k : A → Exn + B) : Exn + B :=
  match m with
  | inl e => inl e
  | inr a => k a
  end.

Notation "'let?' x ':=' m 'in' k" := (and_then m (fun x => k))
  (at level 10, x name, m at level 100, k at level 200, only parsing).

(** The constructor: [this.options] when it returns, the exception when
    it throws.  The three cases are those of [typeof options]:
    ['object'], ['string'] and anything else. *)
Definition constructor (env : Env) (options : JsValue) : Exn + gmap string JsValue :=
  match options with
  | JNull | JArr _ | JObj _ =>
      inr (Object_assign ∅ [defaultOptions; options])
  | JStr path =>
      let? file := readFileSync env path in
      let? fileOptions :=
        (if is_neon path
         then parse_with "neon.decode" (neon_decode env) (replace_crlf file)
         else parse_with "JSON.parse" (JSON_parse env) file) in
      let? config := getConfig_of fileOptions in
      inr (Object_assign ∅ [defaultOptions; config])
  | JUndefined | JBool _ | JNum _ =>
      match pkgUp_sync env with
      | None => inl (InvalidArgType "fs.readFileSync")
      | Some path =>
          let? file := readFileSync env path in
          let? fileOptions := parse_with "JSON.parse" (JSON_parse env) file in
          let? config := getConfig_of fileOptions in
          inr (Object_assign ∅ [defaultOptions; config])
      end
  end.

(** ** The first version of the constructor ([google-fonts-webpack-plugin]) *)

Module Legacy.

Definition PLUGIN_NAME : string := "google-fonts-webpack-plugin".

Definition defaultOptions : JsValue :=
  JObj [("fonts", JArr [JObj [("family", JStr "Roboto");
                              ("variants", strs ["400"; "400i"; "700"; "700i"]);
                              ("subsets", strs ["latin-ext"])]]);
        ("formats", strs ["eot"; "ttf"; "woff"; "woff2"]);
        ("formatAgents", defaultFormatAgents)].

(** [v[key]]: reading a property of [null] or [undefined] throws. *)
Definition get (v : JsValue) (key : string) : Exn + JsValue :=
  match v with
  | JNull | JUndefined => inl (NullProperty key)
  | _ => inr (default JUndefined (own_property v key))
  end.

(** [dirname] is the directory of the module, where the constructor
    looks for [package.json] when it is given no argument. *)
Definition constructor (env : Env) (dirname : string) (options : JsValue)
    : Exn + gmap string JsValue :=
  match options with
  | JNull | JArr _ | JObj _ =>
      inr (Object_assign ∅ [defaultOptions; options])
  | JStr path =>
      let? file := readFileSync env path in
      let? fileOptions :=
        (if is_neon path
         then let? decoded := parse_with "neon.decode" (neon_decode env) (replace_crlf file) in
              get decoded PLUGIN_NAME
         else parse_with "JSON.parse" (JSON_parse env) file) in
      inr (Object_assign ∅ [defaultOptions; fileOptions])
  | JUndefined | JBool _ | JNum _ =>
      let? file := readFileSync env (dirname +:+ "/package.json") in
      let? fileOptions := parse_with "JSON.parse" (JSON_parse env) file in
      let? config := get fileOptions PLUGIN_NAME in
      inr (Object_assign ∅ [defaultOptions; if truthy config then config else JObj []])
  end.

End Legacy.

(** ** Notions used in the statements *)

(** What a promise is once the answer to its request has arrived. *)
Definition answer (net : Network) (p : Promise) : Promise :=
  match p with
  | Pending rq =>
      match net (rq_url rq) (rq_agent rq) with
      | None => Rejected (RequestFailed (rq_url rq))
      | Some response => Fulfilled (finish (rq_wrap rq) response)
      end
  | _ => p
  end.

(** The references of a text, in order: the captures of the expression,
    which [encodeFonts] calls [fontUrls]. *)
Definition references (css : string) : list string :=
  UrlRegex.captures (UrlRegex.scan 0 css).

(** A schedule is fair for [n] promises when it answers each of them. *)
Definition fair (n : nat) (schedule : list nat) : Prop :=
  ∀ i, i < n → i ∈ schedule.

(** Lowercase hexadecimal text. *)
Definition is_hex (s : string) : Prop :=
  ∀ c, included c s = true → included c "0123456789abcdef" = true.




(** The text around the references.  For the tokens of a text
    [p0 u1 p1 ... un pn], where [u1 ... un] are the captures of the
    matches, [lay] gives [(p0, [(u1, p1); ...; (un, pn)])]: the four code
    units [url(] of a match end the part before its capture, and its
    closing parenthesis starts the part after it. *)
Fixpoint lay (ts : list UrlRegex.Token) : string * list (string * string) :=
  match ts with
  | [] => (EmptyString, [])
  | UrlRegex.Lit c :: ts' => let rest := lay ts' in (String c rest.1, rest.2)
  | UrlRegex.Hit whole cap :: ts' =>
      let rest := lay ts' in (take 4 whole, (cap, String ")" rest.1) :: rest.2)
  end.

Definition layout (css : string) : string * list (string * string) :=
  lay (UrlRegex.scan 0 css).


(** The reading in which a descriptor without a family is skipped. *)
Definition buildRequestUrls_skipping (o : Options) : list string :=
  omap createRequestString (fonts o).

(** The reading in which the defaults are deep-merged underneath the
    given value.  Two objects are merged field by field, a field of both
    being merged in turn; anything else is replaced by the given value. *)
Fixpoint deep_merge (defaults given : JsValue) : JsValue :=
  match defaults, given with
  | JObj dfields, JObj gfields =>
      JObj ((fix each (dfs : list (string * JsValue)) : list (string * JsValue) :=
               match dfs with
               | [] => []
               | (key, dv) :: dfs' =>
                   (key, match own_property given key with
                         | Some gv => deep_merge dv gv
                         | None => dv
                         end) :: each dfs'
               end) dfields
            ++ filter (λ kv, own_property defaults kv.1 = None) gfields)
  | _, _ => given
  end.

Definition deep_merged_options (given : JsValue) : gmap string JsValue :=
  Object_assign ∅ [deep_merge defaultOptions given].

(** The parser a path selects, and its name. *)
Definition decode_file (env : Env) (path file : string) : option JsValue :=
  if is_neon path then neon_decode env (replace_crlf file) else JSON_parse env file.

Definition parser_name (path : string) : string :=
  if is_neon path then "neon.decode" else "JSON.parse".

(** ** Sample configurations, services and texts *)

Definition roboto : FontDescriptor :=
  {| family := Some "Roboto"; variants := Some ["400"; "700"]; subsets := Some ["latin"] |}.

Definition open_sans : FontDescriptor :=
  {| family := Some "Open Sans"; variants := None; subsets := None |}.

Definition nameless : FontDescriptor :=
  {| family := None; variants := Some ["400"]; subsets := None |}.

Definition sample_options : Options :=
  {| fonts := [roboto; open_sans];
     formats := ["eot"; "ttf"; "woff"; "woff2"];
     formatAgents := {[ "woff2" := "Edge/14"; "woff" := "Trident/7" ]};
     chunkName := "google-fonts";
     encode := true;
     cache := true |}.

Definition uncached_options : Options :=
  {| fonts := fonts sample_options;
     formats := formats sample_options;
     formatAgents := formatAgents sample_options;
     chunkName := chunkName sample_options;
     encode := true;
     cache := false |}.

(** Options that configure no format. *)
Definition formatless_options : Options :=
  {| fonts := fonts sample_options;
     formats := [];
     formatAgents := formatAgents sample_options;
     chunkName := chunkName sample_options;
     encode := true;
     cache := false |}.

Definition nameless_options : Options :=
  {| fonts := [nameless; roboto];
     formats := formats sample_options;
     formatAgents := formatAgents sample_options;
     chunkName := chunkName sample_options;
     encode := true;
     cache := false |}.

(** A service that knows two stylesheets and one font file. *)
Definition sample_net : Network := λ url agent,
  if decide (url = "https://fonts.googleapis.com/css?family=Roboto:400,700&subset=latin")
  then Some "@font-face{src:url(http://x/f.woff2)}"
  else if decide (url = "https://fonts.googleapis.com/css?family=Open+Sans")
  then Some "@font-face{src:url(http://x/g.woff2)}"
  else if decide (url = "http://x/f.woff2") then Some "foobar"
  else None.

(** A service that answers every request with the same three bytes. *)
Definition echo_net : Network := λ url agent, Some "foo".

Definition empty_world : World := {| disk := ∅; trace := [] |}.

(** A reference that is inlined already. *)
Definition inlined_css : string :=
  "url(" +:+ String dquote "data:application/x-font-woff2;base64,Zm9v"
         +:+ String dquote ")".

(** A data URI whose text has two dollar signs in a row. *)
Definition dollar_css : string :=
  "url(" +:+ String dquote "data:application/x$$" +:+ String dquote ")".

(** Only the agent of one format is configured. *)
Definition one_agent : JsValue :=
  JObj [("formatAgents", JObj [("woff2", JStr "Custom/1.0")])].

(** No file anywhere, and parsers that accept nothing. *)
Definition no_files : Env :=
  {| readFile := λ _, None; JSON_parse := λ _, None;
     neon_decode := λ _, None; pkgUp_sync := None |}.

(** A file system with one JSON file cut short and one NEON file, and
    parsers that accept only the empty object. *)
Definition sample_env : Env :=
  {| readFile := λ path,
       if decide (path = "fonts.json") then Some "{"
       else if decide (path = "fonts.neon") then Some "{}"
       else None;
     JSON_parse := λ text, if decide (text = "{}") then Some (JObj []) else None;
     neon_decode := λ text, if decide (text = "{}") then Some (JObj []) else None;
     pkgUp_sync := None |}.

(** ** The hooks of [apply] *)

(** What the two callbacks of [apply] read and write: the array [files]
    of [apply], which outlives a compilation; [compilation.assets], each
    asset standing for the text its [source()] returns; and the [files]
    of the chunk named [options.chunkName].  The hook [optimizeAssets]
    is handed [compilation.assets] itself, so that its parameter
    [assets] and [compilation.assets] are one object.  What webpack does
    with the chunk between the hooks is not part of the plugin: the
    chunk's files are what the state holds when a callback starts. *)
Record Build := {
  files : list string;
  assets : gmap string string;
  chunk_files : list string
}.




(** The loop of the [optimizeAssets] callback over [files]. *)
Fixpoint encode_each (net : Network) (schedules : list (list nat)) (o : Options)
    (files_left : list string) (w : World) (b : Build)
    : World * Build * Outcome unit :=
  match files_left with
  | [] => (w, b, Returned tt)
  | file :: files_left' =>
      match assets b !! file with
      | None => (w, b, Threw (NullProperty "source"))
      | Some css =>
          match encodeFonts net (hd [] schedules) o css w with
          | (w1, Returned css') =>
              encode_each net (tl schedules) o files_left' w1
                {| files := files b;
                   assets := <[file := css']> (assets b);
                   chunk_files := chunk_files b |}
          | (w1, Threw e) => (w1, b, Threw e)
          | (w1, Hung) => (w1, b, Hung)
          end
      end
  end.

(** [chunk.files[0]] as a property name: [undefined] names the property
    ["undefined"]. *)
Definition rendered_file (b : Build) : string :=
  default "undefined" (chunk_files b !! 0).

(** The [optimizeAssets] callback. *)
Definition optimizeAssets (net : Network) (schedules : list (list nat)) (o : Options)
    (w : World) (b : Build) : World * Build * Outcome unit :=
  encode_each net schedules o (files b) w
    {| files := files b;
       assets := delete (rendered_file b) (assets b);
       chunk_files := files b |}.

(** ** More notions used in the statements *)

(** An outcome that is no return: the call threw, or never settled. *)
Definition failed {A : Type} (out : Outcome A) : Prop :=
  match out with
  | Returned _ => False
  | Threw _ | Hung => True
  end.

(** The events that are HTTP requests. *)
Definition is_get (e : Event) : bool :=
  match e with
  | HttpGet _ _ => true
  | _ => false
  end.

(** The request a started call has issued, if it waits for one. *)
Definition request_of (p : Promise) : option Event :=
  match p with
  | Pending rq => Some (HttpGet (rq_url rq) (rq_agent rq))
  | _ => None
  end.

(** Text without any code unit that [\s] matches. *)
Definition whitespace_free (s : string) : Prop :=
  ∀ c, included c s = true → is_whitespace c = false.

(** Text made of the Base64 digits and the padding sign. *)
Definition base64_text (s : string) : Prop :=
  ∀ c, included c s = true
       → included c "ABCDEFGHIJKLMNOPQRSTUVWXYZabcdefghijklmnopqrstuvwxyz0123456789+/="
         = true.

(** [holds_config v x]: somewhere in [v], at any depth, a field named
    after the plugin has the value [x]. *)
Inductive holds_config : JsValue → JsValue → Prop :=
| holds_here fields x :
    (pluginName, x) ∈ fields → holds_config (JObj fields) x
| holds_in_field fields key v x :
    (key, v) ∈ fields → holds_config v x → holds_config (JObj fields) x
| holds_in_item items v x :
    v ∈ items → holds_config v x → holds_config (JArr items) x.

(** A cache directory that already holds the font of one request, and a
    service that is down. *)
Definition warm_world : World :=
  {| disk := {[ cacheFile (getCacheKey "http://x/f.woff2" "woff2") := "foobar" ]};
     trace := [] |}.

Definition down_net : Network := λ url agent, None.

(** A service that answers every request with an empty body. *)
Definition empty_net : Network := λ url agent, Some "".

(** A service that knows the stylesheet of Roboto and nothing else. *)
Definition roboto_net : Network := λ url agent,
  if decide (url = "https://fonts.googleapis.com/css?family=Roboto:400,700&subset=latin")
  then Some "@font-face{src:url(http://x/f.woff2)}"
  else None.


(** Every code unit of [s] passes the test [p]. *)
Fixpoint all_units (p : ascii → bool) (s : string) : bool :=
  match s with
  | EmptyString => true
  | String a s' => p a && all_units p s'
  end.

(** The key named after the plugin occurs somewhere in a value, at any
    depth. *)
Fixpoint has_config (v : JsValue) : bool :=
  match v with
  | JObj fields =>
      existsb (λ '(key, x), bool_decide (key = pluginName) || has_config x) fields
  | JArr items => existsb has_config items
  | _ => false
  end.

(** A [package.json] that names the plugin after a nested object. *)
Definition package_json : JsValue :=
  JObj [("name", JStr "app");
        ("devDependencies", JObj [("webpack", JStr "^4.0.0")]);
        (pluginName, JObj [("cache", JBool false)]);
        ("config", JObj [(pluginName, JObj [("cache", JBool true)])])].

(** A file system with a [package.json] found from the working
    directory, and a parser that knows its text. *)
Definition package_env : Env :=
  {| readFile := λ path, if decide (path = "/app/package.json") then Some "{...}" else None;
     JSON_parse := λ text, if decide (text = "{...}") then Some package_json else None;
     neon_decode := λ text, None;
     pkgUp_sync := Some "/app/package.json" |}.

(** A file system whose one file holds the text [null]. *)
Definition null_env : Env :=
  {| readFile := λ path, if decide (path = "fonts.json") then Some "null" else None;
     JSON_parse := λ text, if decide (text = "null") then Some JNull else None;
     neon_decode := λ text, None;
     pkgUp_sync := None |}.

(** Options with [encode] switched off. *)
Definition plain_options : Options :=
  {| fonts := fonts sample_options;
     formats := formats sample_options;
     formatAgents := formatAgents sample_options;
     chunkName := chunkName sample_options;
     encode := false;
     cache := true |}.

(** A compilation after [make] has stored one stylesheet and webpack
    has rendered the chunk of the plugin. *)
Definition sample_build : Build :=
  {| files := ["woff2.css"];
     assets := {[ "woff2.css" := "a{src:url(http://x/f.woff2)}";
                  "google-fonts.js" := "" ]};
     chunk_files := ["google-fonts.js"] |}.

(** A format name that a regular expression reads as plain text: it
    holds none of the characters with a meaning of their own there.
    [match_suffix] stands for the expression built from such names. *)
Definition regex_special (c : ascii) : bool :=
  included c "\^$.|?*+()[]{}".

Definition plain_name (f : string) : bool :=
  all_units (λ c, negb (regex_special c)) f.
(** * Properties *)

Local Arguments String.append !s1 s2 : simpl nomatch.

(** ** The library functions on known values *)

Example sha1_abc : SHA1.sha1_hex "abc" = "a9993e364706816aba3e25717850c26c9cd0d89d".
Proof. vm_compute. reflexivity. Qed.

Example sha1_empty : SHA1.sha1_hex "" = "da39a3ee5e6b4b0d3255bfef95601890afd80709".
Proof. vm_compute. reflexivity. Qed.

Example sha1_two_blocks :
  SHA1.sha1_hex "abcdbcdecdefdefgefghfghighijhijkijkljklmklmnlmnomnopnopq"
  = "84983e441c3bd26ebaae4aa1f95129e5e54670f1".
Proof. vm_compute. reflexivity. Qed.

(** A code unit above 127 is hashed as the two bytes of its UTF-8
    encoding: the digest of the one letter U+00E9. *)
Example sha1_utf8 :
  SHA1.sha1_hex (String (ascii_of_nat 233) "") = "bf15be717ac1b080b4f1c456692825891ff5073d".
Proof. vm_compute. reflexivity. Qed.

Example base64_foobar : Base64.encode "foobar" = "Zm9vYmFy".
Proof. reflexivity. Qed.

Example base64_padding : Base64.encode "fo" = "Zm8=" ∧ Base64.encode "f" = "Zg==".
Proof. split; reflexivity. Qed.

Example dataUri_foo :
  dataUri "woff2" "foo"
  = String dquote "data:application/x-font-woff2;base64,Zm9v" +:+ String dquote "".
Proof. reflexivity. Qed.

Example replace_patterns :
  replace "abcabc" "bc" "[$&|$$|$`|$'|$1|$]" = "a[bc|$|a|abc|$1|$]abc".
Proof. reflexivity. Qed.

Example scan_sample :
  UrlRegex.scan 0 "a{URL(x)url(y))}"
  = [UrlRegex.Lit "a"; UrlRegex.Lit "{"; UrlRegex.Hit "URL(x)" "x";
     UrlRegex.Hit "url(y)" "y"; UrlRegex.Lit ")"; UrlRegex.Lit "}"].
Proof. reflexivity. Qed.

(** ** Strings *)

Lemma append_nil_r (s : string) : s +:+ "" = s.
Proof. induction s as [|c s IH]; simpl; [reflexivity | now rewrite IH]. Qed.

Lemma append_assoc (s t u : string) : (s +:+ t) +:+ u = s +:+ (t +:+ u).
Proof. induction s as [|c s IH]; simpl; [reflexivity | now rewrite IH]. Qed.

Lemma length_append (s t : string) :
  String.length (s +:+ t) = String.length s + String.length t.
Proof. induction s as [|c s IH]; simpl; [reflexivity | now rewrite IH]. Qed.

(** Two concatenations with right parts of one length agree part by part. *)
Lemma append_inj_length_r (s1 s2 t1 t2 : string) :
  s1 +:+ t1 = s2 +:+ t2 → String.length t1 = String.length t2 →
  s1 = s2 ∧ t1 = t2.
Proof.
  revert s2. induction s1 as [|a s1 IH]; intros [|b s2] Heq Hlen; simpl in *.
  - split; [reflexivity | assumption].
  - apply (f_equal String.length) in Heq. simpl in Heq.
    rewrite length_append in Heq. lia.
  - apply (f_equal String.length) in Heq. simpl in Heq.
    rewrite length_append in Heq. lia.
  - injection Heq as -> Heq. destruct (IH _ Heq Hlen) as [-> ->]. easy.
Qed.

Lemma take_all (s : string) : take (String.length s) s = s.
Proof. induction s as [|c s IH]; simpl; [reflexivity | now rewrite IH]. Qed.

Lemma take_app_length (s t : string) : take (String.length s) (s +:+ t) = s.
Proof. induction s as [|c s IH]; simpl; [now destruct t | now rewrite IH]. Qed.

Lemma drop_app_length (s t : string) : drop (String.length s) (s +:+ t) = t.
Proof. induction s as [|c s IH]; simpl; [reflexivity | assumption]. Qed.


Lemma startsWith_app (s t : string) : startsWith (s +:+ t) s = true.
Proof.
  induction s as [|c s IH]; simpl; [reflexivity|].
  destruct (decide (c = c)); [assumption | congruence].
Qed.

Lemma startsWith_spec (s p : string) :
  startsWith s p = true ↔ ∃ t, s = p +:+ t.
Proof.
  split.
  - revert s. induction p as [|a p IH]; intros s H; simpl in *.
    + now exists s.
    + destruct s as [|b s]; [discriminate|].
      destruct (decide (a = b)) as [->|]; [|discriminate].
      destruct (IH _ H) as [t ->]. now exists t.
  - intros [t ->]. apply startsWith_app.
Qed.

Lemma included_app (c : ascii) (s t : string) :
  included c (s +:+ t) = included c s || included c t.
Proof.
  induction s as [|a s IH]; simpl; [reflexivity|].
  destruct (decide (a = c)); [reflexivity | assumption].
Qed.




(** Where [indexOf] finds the pattern, the pattern is. *)
Lemma indexOf_split pat : ∀ s pos,
  indexOf pat s = Some pos →
  s = take pos s +:+ pat +:+ drop (pos + String.length pat) s.
Proof.
  assert (∀ s, startsWith s pat = true →
               s = take 0 s +:+ pat +:+ drop (0 + String.length pat) s) as Hzero.
  { intros s [t ->]%startsWith_spec. simpl.
    rewrite drop_app_length. now destruct (pat +:+ t). }
  induction s as [|c s IH]; intros pos; simpl.
  - destruct (startsWith "" pat) eqn:Hp; [|discriminate].
    intros [= <-]. now apply Hzero.
  - destruct (startsWith (String c s) pat) eqn:Hp.
    + intros [= <-]. now apply Hzero.
    + destruct (indexOf pat s) as [k|]; [|discriminate].
      intros [= <-]. simpl. f_equal. now apply IH.
Qed.


(** ** The digest has forty lowercase hexadecimal digits *)

Lemma is_hex_app (s t : string) : is_hex s → is_hex t → is_hex (s +:+ t).
Proof.
  intros Hs Ht c. rewrite included_app. intros [H|H]%orb_true_iff; auto.
Qed.

Lemma hex_digit_is_hex (x : Z) :
  (0 ≤ x < 16)%Z → included (SHA1.hex_digit x) "0123456789abcdef" = true.
Proof.
  intros Hx.
  assert (∃ n : nat, n < 16 ∧ x = Z.of_nat n) as (n & Hn & ->)
    by (exists (Z.to_nat x); lia).
  do 16 (destruct n as [|n]; [reflexivity|]). lia.
Qed.

Lemma hex_length (n : nat) (x : Z) : String.length (SHA1.hex n x) = n.
Proof. induction n as [|n IH]; simpl; [reflexivity | now rewrite IH]. Qed.

Lemma hex_is_hex (n : nat) (x : Z) : is_hex (SHA1.hex n x).
Proof.
  induction n as [|n IH]; intros c; simpl; [discriminate|].
  destruct (decide _) as [<-|]; [intros _ | apply IH].
  apply hex_digit_is_hex.
  change 15%Z with (Z.ones 4). rewrite Z.land_ones by lia.
  apply Z.mod_pos_bound. reflexivity.
Qed.

Lemma sha1_hex_length (s : string) : String.length (SHA1.sha1_hex s) = 40.
Proof. unfold SHA1.sha1_hex. now rewrite !length_append, !hex_length. Qed.

Lemma sha1_hex_is_hex (s : string) : is_hex (SHA1.sha1_hex s).
Proof. unfold SHA1.sha1_hex. repeat apply is_hex_app; apply hex_is_hex. Qed.

(** ** Cache keys *)

(** C6.  The cache key of a request is the format, a dash and the SHA-1
    digest of the request URL, which has forty hexadecimal digits.  It
    is a function of the URL and the format, so equal requests have one
    key and one cache file, and two different requests have different
    keys unless the digests of their URLs collide. *)
Theorem getCacheKey_digest_injective (url1 format1 url2 format2 : string) :
  (getCacheKey url1 format1 = format1 +:+ "-" +:+ SHA1.sha1_hex url1
   ∧ String.length (SHA1.sha1_hex url1) = 40
   ∧ is_hex (SHA1.sha1_hex url1))
  ∧ (url1 = url2 → format1 = format2 →
     getCacheKey url1 format1 = getCacheKey url2 format2
     ∧ cacheFile (getCacheKey url1 format1) = cacheFile (getCacheKey url2 format2))
  ∧ ((SHA1.sha1_hex url1 = SHA1.sha1_hex url2 → url1 = url2) →
     (url1, format1) ≠ (url2, format2) →
     getCacheKey url1 format1 ≠ getCacheKey url2 format2
     ∧ cacheFile (getCacheKey url1 format1) ≠ cacheFile (getCacheKey url2 format2)).
Proof.
  split; [|split].
  - split; [reflexivity|]. split; [apply sha1_hex_length | apply sha1_hex_is_hex].
  - intros -> ->. split; reflexivity.
  - intros Hcollision Hne.
    assert (getCacheKey url1 format1 ≠ getCacheKey url2 format2) as Hkey.
    { unfold getCacheKey. intros Heq. apply Hne.
      rewrite <- !append_assoc in Heq.
      apply append_inj_length_r in Heq as [Hf Hd]; [|now rewrite !sha1_hex_length].
      apply append_inj_length_r in Hf as [-> _]; [|reflexivity].
      now rewrite (Hcollision Hd). }
    split; [assumption|].
    unfold cacheFile. intros Heq. apply Hkey.
    eapply (inj (String.append _)), (inj (String.append _)), Heq.
Qed.

Lemma getCacheKey_digest_injective_witness :
  getCacheKey "http://x/a.woff2" "woff2" ≠ getCacheKey "http://x/b.woff2" "woff2"
  ∧ getCacheKey "http://x/a.woff2" "woff" ≠ getCacheKey "http://x/a.woff2" "woff2".
Proof.
  split.
  - refine (proj1 (proj2 (proj2 (getCacheKey_digest_injective
              "http://x/a.woff2" "woff2" "http://x/b.woff2" "woff2")) _ _)).
    + intros H. vm_compute in H. discriminate H.
    + intros H. discriminate H.
  - refine (proj1 (proj2 (proj2 (getCacheKey_digest_injective
              "http://x/a.woff2" "woff" "http://x/a.woff2" "woff2")) _ _)).
    + intros _. reflexivity.
    + intros H. discriminate H.
Defined.

(** ** The references of a text *)

Lemma lazy_tail_stable : ∀ t x,
  UrlRegex.lazy_tail t = Some x →
  (∃ rest, t = x +:+ String ")" rest)
  ∧ ∀ rest, UrlRegex.lazy_tail (x +:+ String ")" rest) = Some x.
Proof.
  induction t as [|c t IH]; intros x; simpl; [discriminate|].
  case_bool_decide as Hc.
  - intros [= <-]. subst c. split; [now exists t | reflexivity].
  - destruct (UrlRegex.is_line_terminator c) eqn:Hlt; [discriminate|].
    destruct (UrlRegex.lazy_tail t) as [y|]; [|discriminate].
    intros [= <-]. destruct (IH y eq_refl) as [[rest ->] Hstable].
    split; [now exists rest|].
    intros rest'. simpl. rewrite bool_decide_eq_false_2 by assumption.
    now rewrite Hlt, Hstable.
Qed.

(** A match is a match of its own text, whatever follows it. *)
Lemma match_here_stable s cap :
  UrlRegex.match_here s = Some cap →
  ∃ pre rest,
    String.length pre = 4
    ∧ s = pre +:+ cap +:+ String ")" rest
    ∧ ∀ rest', UrlRegex.match_here (pre +:+ cap +:+ String ")" rest') = Some cap.
Proof.
  unfold UrlRegex.match_here, UrlRegex.after_url_paren.
  destruct s as [|a [|b [|c [|d [|e t]]]]]; try discriminate.
  - now destruct (_ && _).
  - destruct (_ && _) eqn:Hurl; [|discriminate].
    destruct (UrlRegex.is_line_terminator e) eqn:Hlt; [discriminate|].
    destruct (UrlRegex.lazy_tail t) as [x|] eqn:Htail; [|discriminate].
    intros [= <-]. destruct (lazy_tail_stable t x Htail) as [[rest ->] Hstable].
    exists (String a (String b (String c (String d "")))), rest.
    split; [reflexivity|]. split; [reflexivity|].
    intros rest'. simpl. rewrite Hurl, Hlt. now rewrite Hstable.
Qed.

Lemma scan_skip_all : ∀ t k, String.length t ≤ k → UrlRegex.scan k t = [].
Proof.
  induction t as [|c t IH]; intros k Hk; simpl in *; [reflexivity|].
  destruct k as [|k]; [lia|]. apply IH. lia.
Qed.

(** The two regular expression calls of [encodeFonts] undo each other:
    replacing a match by its capture gives the capture. *)
Lemma replace_by_capture_whole s cap :
  UrlRegex.match_here s = Some cap →
  UrlRegex.replace_by_capture (take (5 + String.length cap) s) = cap.
Proof.
  intros Hm. destruct (match_here_stable s cap Hm) as (pre & rest & Hpre & -> & Hstable).
  assert (take (5 + String.length cap) (pre +:+ cap +:+ String ")" rest)
          = pre +:+ cap +:+ String ")" "") as ->.
  { replace (pre +:+ cap +:+ String ")" rest)
      with ((pre +:+ cap +:+ String ")" "") +:+ rest)
      by now rewrite !append_assoc.
    replace (5 + String.length cap) with (String.length (pre +:+ cap +:+ String ")" ""))
      by (rewrite !length_append; simpl; lia).
    apply take_app_length. }
  unfold UrlRegex.replace_by_capture.
  destruct pre as [|a pre]; [discriminate|].
  cbn [String.append UrlRegex.scan].
  change (String a (pre +:+ cap +:+ String ")" ""))
    with (String a pre +:+ cap +:+ String ")" "").
  rewrite Hstable. rewrite scan_skip_all.
  - simpl. apply append_nil_r.
  - rewrite !length_append. simpl in *. lia.
Qed.

Lemma scan_captures : ∀ css skip,
  map UrlRegex.replace_by_capture (UrlRegex.wholes (UrlRegex.scan skip css))
  = UrlRegex.captures (UrlRegex.scan skip css).
Proof.
  induction css as [|c css IH]; intros skip; simpl; [reflexivity|].
  destruct skip as [|k]; [|apply IH].
  destruct (UrlRegex.match_here (String c css)) as [cap|] eqn:Hm; simpl.
  - rewrite IH. f_equal.
    apply (replace_by_capture_whole (String c css) cap Hm).
  - apply IH.
Qed.

(** [fontUrls] in [encodeFonts] is the list of the references, and
    [css.match(regex)] is [null] exactly when there is none. *)
Lemma fontUrls_references css :
  match UrlRegex.str_match css with
  | Some matches =>
      map UrlRegex.replace_by_capture matches = references css ∧ references css ≠ []
  | None => references css = []
  end.
Proof.
  unfold UrlRegex.str_match, references. rewrite <- scan_captures.
  now destruct (UrlRegex.wholes _).
Qed.

Lemma scan_without_paren : ∀ css skip,
  included "("%char css = false → UrlRegex.wholes (UrlRegex.scan skip css) = [].
Proof.
  induction css as [|c css IH]; intros skip Hno; simpl; [reflexivity|].
  simpl in Hno. destruct (decide (c = "("%char)) as [|Hc]; [discriminate|].
  destruct skip as [|k]; [|now apply IH].
  assert (UrlRegex.match_here (String c css) = None) as ->.
  { unfold UrlRegex.match_here, UrlRegex.after_url_paren.
    destruct css as [|b [|c3 [|d rest]]]; try reflexivity.
    simpl in Hno.
    destruct (decide (b = "("%char)); [discriminate|].
    destruct (decide (c3 = "("%char)); [discriminate|].
    destruct (decide (d = "("%char)) as [|Hd]; [discriminate|].
    rewrite (bool_decide_eq_false_2 (d = "("%char)) by assumption.
    now rewrite !andb_false_r. }
  simpl. now apply IH.
Qed.

(** A text without an opening parenthesis has no reference. *)
Lemma references_without_paren css :
  included "("%char css = false → references css = [].
Proof.
  intros Hno. unfold references. rewrite <- scan_captures.
  now rewrite scan_without_paren.
Qed.

(** The expression built from the formats fails on a text exactly when
    no alternative is the text's ending. *)
Lemma match_suffix_none alts s :
  match_suffix alts s = None ↔ ∀ start ending, s = start +:+ ending → ending ∉ alts.
Proof.
  induction s as [|c s IH]; simpl.
  - case_bool_decide as Hin; split; try discriminate.
    + intros Hall. destruct (Hall "" "" eq_refl Hin).
    + intros _ [|a start] ending Heq; [|discriminate]. simpl in Heq. now subst.
    + reflexivity.
  - case_bool_decide as Hin; split; try discriminate.
    + intros Hall. destruct (Hall "" (String c s) eq_refl Hin).
    + intros Hnone [|a start] ending Heq.
      * simpl in Heq. now subst.
      * injection Heq as _ Heq. now apply (proj1 IH Hnone start).
    + intros Hall. apply IH. intros start ending ->.
      now apply (Hall (String c start)).
Qed.

(** ** Promises and the event loop *)

Section EventLoop.

Context (net : Network).

Lemma requestFont_resume_answer rq w :
  (requestFont_resume net rq w).2 = answer net (Pending rq).
Proof. unfold requestFont_resume; simpl. now destruct (net _ _). Qed.

Lemma answer_idem p : answer net (answer net p) = answer net p.
Proof. destruct p as [v|e|rq]; simpl; try reflexivity. now destruct (net _ _). Qed.

Lemma answer_scheduled_again (ps : list Promise) i j schedule q :
  ps !! j = Some q → answer net q = q →
  (if bool_decide (i ∈ j :: schedule) then answer net else id) <$> ps !! i
  = (if bool_decide (i ∈ schedule) then answer net else id) <$> ps !! i.
Proof.
  intros Hq Hfix. destruct (decide (i = j)) as [->|Hij].
  - rewrite Hq; simpl.
    rewrite (bool_decide_eq_true_2 (j ∈ j :: schedule)) by apply list_elem_of_here.
    destruct (bool_decide _); unfold fmap, option_fmap, option_map;
      [reflexivity | now rewrite Hfix].
  - rewrite (bool_decide_ext (i ∈ j :: schedule) (i ∈ schedule)); [reflexivity|].
    rewrite elem_of_cons. tauto.
Qed.

(** The promise at a position after the event loop has run: answered if
    the position is scheduled, untouched otherwise. *)
Lemma deliver_lookup schedule : ∀ ps w i,
  (deliver net schedule ps w).2 !! i
  = (if bool_decide (i ∈ schedule) then answer net else id) <$> ps !! i.
Proof.
  induction schedule as [|j schedule IH]; intros ps w i; simpl.
  - now destruct (ps !! i).
  - destruct (ps !! j) as [[v|e|rq]|] eqn:Hj.
    + rewrite IH. symmetry. now apply (answer_scheduled_again ps i j schedule _ Hj).
    + rewrite IH. symmetry. now apply (answer_scheduled_again ps i j schedule _ Hj).
    + destruct (requestFont_resume net rq w) as [w1 p] eqn:Hres.
      assert (p = answer net (Pending rq)) as ->
        by now rewrite <- (requestFont_resume_answer rq w), Hres.
      rewrite IH. destruct (decide (i = j)) as [->|Hij].
      * rewrite list_lookup_insert_eq by (now apply lookup_lt_Some in Hj).
        rewrite Hj, (bool_decide_eq_true_2 (j ∈ j :: schedule)) by apply list_elem_of_here.
        destruct (bool_decide _); unfold fmap, option_fmap, option_map;
          [f_equal; apply answer_idem | reflexivity].
      * rewrite list_lookup_insert_ne by congruence.
        rewrite (bool_decide_ext (i ∈ j :: schedule) (i ∈ schedule)); [reflexivity|].
        rewrite elem_of_cons. tauto.
    + rewrite IH. destruct (decide (i = j)) as [->|Hij].
      * now rewrite Hj.
      * rewrite (bool_decide_ext (i ∈ j :: schedule) (i ∈ schedule)); [reflexivity|].
        rewrite elem_of_cons. tauto.
Qed.

(** Promises that wait for nothing are left alone, and so is the world. *)
Lemma deliver_settled schedule ps : ∀ w,
  Forall (λ p, ∀ rq, p ≠ Pending rq) ps → deliver net schedule ps w = (w, ps).
Proof.
  induction schedule as [|i schedule IH]; intros w Hps; simpl; [reflexivity|].
  destruct (ps !! i) as [[v|e|rq]|] eqn:Hi; try now apply IH.
  rewrite Forall_lookup in Hps. now destruct (Hps i _ Hi rq).
Qed.

Lemma await_one_outcome w p :
  (await_one net (w, p)).2 = outcome_of (answer net p).
Proof.
  destruct p as [v|e|rq]; try reflexivity. unfold await_one.
  pose proof (requestFont_resume_answer rq w) as Hr.
  destruct (requestFont_resume net rq w) as [w2 p]. simpl in Hr. now subst p.
Qed.

(** Calls that only read the disk, and whose promise depends on nothing
    but the disk, such as the two the plugin starts in a row. *)
Section Started.

Context {A : Type} (start : A → World → World * Promise).
Hypothesis start_disk : ∀ x w, disk (start x w).1 = disk w.
Hypothesis start_pure : ∀ x w w', disk w = disk w' → (start x w).2 = (start x w').2.

Lemma start_each_spec xs : ∀ w,
  disk (start_each start xs w).1 = disk w
  ∧ (start_each start xs w).2 = map (λ x, (start x w).2) xs.
Proof.
  induction xs as [|x xs IH]; intros w; simpl; [easy|].
  destruct (start x w) as [w1 p] eqn:Hx.
  destruct (start_each start xs w1) as [w2 ps] eqn:Hxs. simpl.
  destruct (IH w1) as [IHd IHp]. rewrite Hxs in IHd, IHp. simpl in *.
  assert (disk w1 = disk w) as Hw1 by now rewrite <- (start_disk x w), Hx.
  split; [congruence|]. f_equal; subst ps.
  apply map_ext. intros y. now apply start_pure.
Qed.

(** The promises of a [for await] loop after the event loop has run, as
    the calls started on their own would leave them. *)
Lemma for_await_lookup schedule xs w :
  ∃ settled,
    (for_await net schedule start xs w).2 = await_each settled
    ∧ ∀ i, settled !! i
           = (λ x, (if bool_decide (i ∈ schedule) then answer net else id)
                     (start x w).2) <$> xs !! i.
Proof.
  unfold for_await. destruct (start_each_spec xs w) as [_ Hps].
  destruct (start_each start xs w) as [w1 promises]. simpl in Hps. subst promises.
  pose proof (deliver_lookup schedule (map (λ x, (start x w).2) xs) w1) as Hlook.
  destruct (deliver net schedule _ w1) as [w2 settled]. simpl in *.
  exists settled. split; [reflexivity|].
  intros i. rewrite Hlook, list_lookup_fmap. now destruct (xs !! i).
Qed.

Lemma for_await_fair schedule xs w :
  fair (length xs) schedule →
  (for_await net schedule start xs w).2
  = await_each (map (λ x, answer net (start x w).2) xs).
Proof.
  intros Hfair. destruct (for_await_lookup schedule xs w) as (settled & -> & Hlook).
  f_equal. apply list_eq. intros i. rewrite Hlook, list_lookup_fmap.
  destruct (xs !! i) as [x|] eqn:Hi; [|reflexivity]. simpl.
  rewrite bool_decide_eq_true_2; [reflexivity|].
  apply Hfair. now apply lookup_lt_Some in Hi.
Qed.

End Started.

End EventLoop.

Lemma await_each_fulfilled vs : await_each (map Fulfilled vs) = Returned vs.
Proof. induction vs as [|v vs IH]; simpl; [reflexivity | now rewrite IH]. Qed.

Lemma await_each_returned ps vs :
  await_each ps = Returned vs → ps = map Fulfilled vs.
Proof.
  revert vs. induction ps as [|[v|e|rq] ps IH]; intros vs; simpl.
  - now intros [= <-].
  - destruct (await_each ps) as [vs'| |]; try discriminate.
    intros [= <-]. simpl. now rewrite (IH vs').
  - discriminate.
  - discriminate.
Qed.

(** A rejected promise behind fulfilled ones is what the loop throws. *)
Lemma await_each_first_rejected settled vs e :
  (∀ i v, vs !! i = Some v → settled !! i = Some (Fulfilled v)) →
  settled !! length vs = Some (Rejected e) →
  await_each settled = Threw e.
Proof.
  revert settled. induction vs as [|v vs IH]; intros settled Hpre Hrej; simpl in *.
  - destruct settled as [|p settled]; [discriminate|]. now injection Hrej as ->.
  - destruct settled as [|p settled]; [discriminate|].
    pose proof (Hpre 0 v eq_refl) as H0. injection H0 as ->. simpl.
    rewrite (IH settled); [reflexivity | | assumption].
    intros i v' Hi. exact (Hpre (S i) v' Hi).
Qed.

(** With a rejected promise anywhere the loop does not return. *)
Lemma await_each_never_returns settled i e vs :
  settled !! i = Some (Rejected e) → await_each settled ≠ Returned vs.
Proof.
  intros Hrej Hret. apply await_each_returned in Hret. subst settled.
  rewrite list_lookup_fmap in Hrej. now destruct (vs !! i).
Qed.

(** ** The two calls the plugin starts in a row *)

Lemma getFromCache_disk key w : disk (getFromCache key w).1 = disk w.
Proof. unfold getFromCache. now destruct (disk w !! cacheFile key). Qed.

Lemma getFromCache_value key w : (getFromCache key w).2 = disk w !! cacheFile key.
Proof. unfold getFromCache. now destruct (disk w !! cacheFile key). Qed.

Lemma requestFont_start_disk o format wrap rs w :
  disk (requestFont_start o rs format wrap w).1 = disk w.
Proof.
  unfold requestFont_start. destruct rs as [url|]; [|reflexivity].
  destruct (cache o).
  - pose proof (getFromCache_disk (getCacheKey url format) w) as Hd.
    destruct (getFromCache _ w) as [w1 [[|c r]|]]; simpl in *; assumption.
  - reflexivity.
Qed.

Lemma requestFont_start_pure o format wrap rs w w' :
  disk w = disk w' →
  (requestFont_start o rs format wrap w).2 = (requestFont_start o rs format wrap w').2.
Proof.
  intros Hd. unfold requestFont_start. destruct rs as [url|]; [|reflexivity].
  destruct (cache o); [|reflexivity].
  pose proof (getFromCache_value (getCacheKey url format) w) as Hv.
  pose proof (getFromCache_value (getCacheKey url format) w') as Hv'.
  rewrite Hd in Hv. rewrite <- Hv' in Hv.
  destruct (getFromCache _ w) as [w1 r1], (getFromCache _ w') as [w1' r1'].
  simpl in Hv. subst r1. now destruct r1' as [[|c r]|].
Qed.

Lemma requestFontFile_start_disk o fontUrl w :
  disk (requestFontFile_start o fontUrl w).1 = disk w.
Proof.
  unfold requestFontFile_start. destruct (startsWith _ _); [reflexivity|].
  destruct (match_suffix _ _); [apply requestFont_start_disk | reflexivity].
Qed.

Lemma requestFontFile_start_pure o fontUrl w w' :
  disk w = disk w' →
  (requestFontFile_start o fontUrl w).2 = (requestFontFile_start o fontUrl w').2.
Proof.
  intros Hd. unfold requestFontFile_start. destruct (startsWith _ _); [reflexivity|].
  destruct (match_suffix _ _); [now apply requestFont_start_pure | reflexivity].
Qed.

Lemma requestFont_outcome net o rs format w :
  (requestFont net o rs format w).2
  = outcome_of (answer net (requestFont_start o rs format None w).2).
Proof.
  unfold requestFont.
  destruct (requestFont_start o rs format None w) as [w1 p].
  apply await_one_outcome.
Qed.

Lemma requestFontFile_outcome net o fontUrl w :
  (requestFontFile net o fontUrl w).2
  = outcome_of (answer net (requestFontFile_start o fontUrl w).2).
Proof.
  unfold requestFontFile.
  destruct (requestFontFile_start o fontUrl w) as [w1 p].
  apply await_one_outcome.
Qed.

(** A call awaited on its own returns a value exactly when its promise,
    once answered, is fulfilled with that value. *)
Lemma outcome_returned p v : outcome_of p = Returned v → p = Fulfilled v.
Proof. destruct p; simpl; congruence. Qed.

Lemma requestFontFiles_lookup net schedule o fontUrls w :
  ∃ settled,
    (requestFontFiles net schedule o fontUrls w).2 = await_each settled
    ∧ ∀ i, settled !! i
           = (λ u, (if bool_decide (i ∈ schedule) then answer net else id)
                     (requestFontFile_start o u w).2) <$> fontUrls !! i.
Proof.
  apply for_await_lookup;
    [apply requestFontFile_start_disk | apply requestFontFile_start_pure].
Qed.


(** ** Fetching stylesheets *)

Lemma requestFontsCSS_lookup net schedule o format w :
  ∃ settled,
    (requestFontsCSS net schedule o format w).2
    = match await_each settled with
      | Returned results => Returned (join "" results)
      | Threw e => Threw e
      | Hung => Hung
      end
    ∧ ∀ i, settled !! i
           = (λ rs, (if bool_decide (i ∈ schedule) then answer net else id)
                      (requestFont_start o rs format None w).2)
               <$> createRequestStrings o !! i.
Proof.
  destruct (for_await_lookup net
              (λ rs, requestFont_start o rs format None)
              (requestFont_start_disk o format None)
              (requestFont_start_pure o format None)
              schedule (createRequestStrings o) w) as (settled & Hloop & Hlook).
  exists settled. split; [|exact Hlook].
  unfold requestFontsCSS. destruct (for_await _ _ _ _ _) as [w1 outcome].
  simpl in *. subst outcome. now destruct (await_each settled).
Qed.

(** Under a fair schedule the promises of [requestFontsCSS] are, position
    by position, the answered promises of its request strings. *)
Lemma requestFontsCSS_fair net schedule o format w :
  fair (length (fonts o)) schedule →
  (requestFontsCSS net schedule o format w).2
  = match await_each (map (λ rs, answer net (requestFont_start o rs format None w).2)
                          (createRequestStrings o)) with
    | Returned results => Returned (join "" results)
    | Threw e => Threw e
    | Hung => Hung
    end.
Proof.
  intros Hfair.
  pose proof (for_await_fair net
                (λ rs, requestFont_start o rs format None)
                (requestFont_start_disk o format None)
                (requestFont_start_pure o format None)
                schedule (createRequestStrings o) w) as Hloop.
  unfold createRequestStrings in Hloop at 1. rewrite length_map in Hloop.
  specialize (Hloop Hfair).
  unfold requestFontsCSS. destruct (for_await _ _ _ _ _) as [w1 outcome].
  simpl in *. subst outcome. now destruct (await_each _).
Qed.

Lemma await_each_failed settled i p :
  settled !! i = Some p → (∀ v, p ≠ Fulfilled v) → failed (await_each settled).
Proof.
  intros Hi Hp. destruct (await_each settled) as [vs| |] eqn:Hloop; simpl; [|exact I..].
  apply await_each_returned in Hloop. subst settled.
  rewrite list_lookup_fmap in Hi. destruct (vs !! i) as [v|]; [|discriminate].
  injection Hi as <-. now apply (Hp v).
Qed.

Lemma await_each_answered net ps : await_each (map (answer net) ps) ≠ Hung.
Proof.
  induction ps as [|p ps IH]; simpl; [discriminate|].
  destruct p as [v|e|rq]; simpl.
  - destruct (await_each _); [discriminate.. | assumption].
  - discriminate.
  - destruct (net _ _); simpl; [|discriminate].
    destruct (await_each _); [discriminate.. | assumption].
Qed.

Lemma outcome_threw p e : outcome_of p = Threw e → p = Rejected e.
Proof. destruct p; simpl; congruence. Qed.

(** The texts a list of request strings fetches, each on its own. *)
Lemma fetched_texts net o format w rss :
  Forall (λ rs, ∃ text, (requestFont net o rs format w).2 = Returned text) rss →
  ∃ texts, Forall2 (λ rs text, answer net (requestFont_start o rs format None w).2
                               = Fulfilled text) rss texts.
Proof.
  induction 1 as [|rs rss [text Hrs] _ [texts IH]].
  - exists []. constructor.
  - exists (text :: texts). constructor; [|assumption].
    rewrite requestFont_outcome in Hrs. now apply outcome_returned.
Qed.


Lemma createRequestString_family item :
  match createRequestString item with
  | Some url =>
      truthy_string (family item) = true
      ∧ startsWith url "https://fonts.googleapis.com/css?family=" = true
  | None => truthy_string (family item) = false
  end.
Proof.
  unfold createRequestString.
  destruct (family item) as [[|c f]|]; try reflexivity.
  split; [reflexivity|].
  destruct (variants item), (subsets item);
    rewrite ?append_assoc; apply startsWith_app.
Qed.

(** C7.  Whatever fair order the answers arrive in, [requestFontsCSS]
    returns the texts of its request strings joined without separator in
    the order of the font descriptors, each text being the one
    [requestFont] returns for that request string on its own; and any
    two fair arrival orders give the same outcome.  A descriptor without
    a family is not passed over: its [null] request string reaches the
    hash function, the call returns no text, and once the descriptors
    before it have their texts it throws the error of that function. *)
Theorem requestFontsCSS_in_order net o format w schedule :
  fair (length (fonts o)) schedule →
  (∀ texts,
     Forall2 (λ rs text, (requestFont net o rs format w).2 = Returned text)
             (createRequestStrings o) texts →
     (requestFontsCSS net schedule o format w).2 = Returned (join "" texts))
  ∧ (∀ schedule',
       fair (length (fonts o)) schedule' →
       (requestFontsCSS net schedule' o format w).2
       = (requestFontsCSS net schedule o format w).2)
  ∧ (∀ before item after,
       fonts o = before ++ item :: after →
       truthy_string (family item) = false →
       (∀ css, (requestFontsCSS net schedule o format w).2 ≠ Returned css)
       ∧ (Forall (λ d, ∃ text, (requestFont net o (createRequestString d) format w).2
                               = Returned text) before →
          (requestFontsCSS net schedule o format w).2
          = Threw (InvalidArgType "Hash.update"))).
Proof.
  intros Hfair. split; [|split].
  - intros texts Htexts. rewrite requestFontsCSS_fair by assumption.
    assert (map (λ rs, answer net (requestFont_start o rs format None w).2)
                (createRequestStrings o) = map Fulfilled texts) as ->.
    { induction Htexts as [|rs text rss texts Hrs _ IH]; simpl; [reflexivity|].
      rewrite IH. f_equal. rewrite requestFont_outcome in Hrs.
      now apply outcome_returned. }
    now rewrite await_each_fulfilled.
  - intros schedule' Hfair'. now rewrite !requestFontsCSS_fair.
  - intros before item after Hfonts Hfamily.
    assert (createRequestStrings o
            = map createRequestString before ++ None :: map createRequestString after)
      as Hstrings.
    { unfold createRequestStrings. rewrite Hfonts, map_app. simpl. do 2 f_equal.
      pose proof (createRequestString_family item) as Hitem.
      destruct (createRequestString item); [|reflexivity].
      destruct Hitem as [Hitem _]. congruence. }
    destruct (requestFontsCSS_lookup net schedule o format w) as (settled & -> & Hlook).
    assert (settled !! length (map createRequestString before)
            = Some (Rejected (InvalidArgType "Hash.update"))) as Hrej.
    { rewrite Hlook, Hstrings, list_lookup_middle by reflexivity. simpl.
      now destruct (bool_decide _). }
    split.
    + intros css.
      pose proof (λ vs, await_each_never_returns settled _ _ vs Hrej) as Hnever.
      destruct (await_each settled) as [texts|e|]; try discriminate.
      now destruct (Hnever texts).
    + intros Hbefore.
      assert (Forall (λ r, ∃ text, (requestFont net o r format w).2 = Returned text)
                     (map createRequestString before)) as Hresolved
        by now apply Forall_fmap.
      destruct (fetched_texts net o format w _ Hresolved) as [texts Htexts].
      rewrite (await_each_first_rejected settled texts (InvalidArgType "Hash.update"));
        [reflexivity | | now rewrite <- (Forall2_length _ _ _ Htexts)].
      intros i text Hi.
      destruct (Forall2_lookup_r _ _ _ _ _ Htexts Hi) as (r & Hr & Hanswer).
      rewrite Hlook, Hstrings, lookup_app_l, Hr by (now apply lookup_lt_Some in Hr).
      simpl. rewrite bool_decide_eq_true_2, Hanswer; [reflexivity|].
      apply Hfair. apply lookup_lt_Some in Hr.
      rewrite Hfonts, length_app. rewrite length_map in Hr. simpl. lia.
Qed.

Lemma requestFontsCSS_in_order_witness :
  (requestFontsCSS sample_net [1; 0] sample_options "woff2" empty_world).2
  = Returned "@font-face{src:url(http://x/f.woff2)}@font-face{src:url(http://x/g.woff2)}"
  ∧ (requestFontsCSS sample_net [1; 0] nameless_options "woff2" empty_world).2
    = Threw (InvalidArgType "Hash.update").
Proof.
  assert (fair 2 [1; 0]) as Hfair.
  { intros i Hi. destruct i as [|[|i]]; [right; left | left | lia]. }
  split.
  - refine (proj1 (requestFontsCSS_in_order sample_net sample_options "woff2"
                     empty_world [1; 0] Hfair)
              ["@font-face{src:url(http://x/f.woff2)}";
               "@font-face{src:url(http://x/g.woff2)}"] _).
    repeat constructor; vm_compute; reflexivity.
  - refine (proj2 (proj2 (proj2 (requestFontsCSS_in_order sample_net nameless_options
                     "woff2" empty_world [1; 0] Hfair)) [] nameless [roboto]
                     eq_refl eq_refl) _).
    constructor.
Defined.

(** A first descriptor without a family makes [requestFontsCSS] throw:
    the [null] entry reaches the hash function. *)
Lemma requestFontsCSS_null_first net schedule o format w rest :
  createRequestStrings o = None :: rest →
  (requestFontsCSS net schedule o format w).2 = Threw (InvalidArgType "Hash.update").
Proof.
  intros Hnull.
  destruct (requestFontsCSS_lookup net schedule o format w) as (settled & -> & Hlook).
  specialize (Hlook 0). rewrite Hnull in Hlook. simpl in Hlook.
  destruct settled as [|p settled]; [discriminate|].
  destruct (bool_decide _); simpl in Hlook; injection Hlook as ->; reflexivity.
Qed.

(** ** Fetching with the cache switched off, and on *)

(** A fetch with [cache] switched off, when the service answers. *)
Lemma requestFont_uncached net o url format w body :
  cache o = false →
  net url (formatAgents o !! format) = Some body →
  requestFont net o (Some url) format w
  = ({| disk := <[cacheFile (getCacheKey url format) := body]> (disk w);
        trace := trace w ++ [HttpGet url (formatAgents o !! format);
                             FsWrite (cacheFile (getCacheKey url format)) body] |},
     Returned body).
Proof.
  intros Hcache Hnet. unfold requestFont, requestFont_start.
  rewrite Hcache. simpl. unfold requestFont_resume. simpl.
  rewrite Hnet. unfold saveToCache. simpl.
  now rewrite <- app_assoc.
Qed.

(** C2.  With [cache] switched off, a fetch that the service answers
    consults no cache file and issues one GET, and then writes the
    answer to the cache file of the request all the same: the call to
    [saveToCache] is not guarded by the setting, so the cache does not
    stay as it was. *)
Theorem requestFont_cache_off_still_saves net o url format w body :
  cache o = false →
  net url (formatAgents o !! format) = Some body →
  let file := cacheFile (getCacheKey url format) in
  let w1 := (requestFont net o (Some url) format w).1 in
  trace w1 = trace w ++ [HttpGet url (formatAgents o !! format); FsWrite file body]
  ∧ disk w1 !! file = Some body
  ∧ (disk w !! file ≠ Some body → disk w1 ≠ disk w).
Proof.
  intros Hcache Hnet file w1. subst file w1.
  rewrite (requestFont_uncached net o url format w body Hcache Hnet). simpl.
  split; [reflexivity|]. split; [apply lookup_insert_eq|].
  intros Hold Heq. apply Hold. rewrite <- Heq. apply lookup_insert_eq.
Qed.

Lemma requestFont_cache_off_still_saves_witness :
  disk (requestFont sample_net uncached_options (Some "http://x/f.woff2") "woff2"
          empty_world).1
    !! "node_modules/.cache/google-fonts-plugin/woff2-fca8e73c142cfa7cfa309897da3769a580d63a10"
  = Some "foobar".
Proof.
  exact (proj1 (proj2 (requestFont_cache_off_still_saves sample_net uncached_options
                         "http://x/f.woff2" "woff2" empty_world "foobar"
                         eq_refl eq_refl))).
Defined.

(** With [cache] switched off, two fetches of one URL in a row both go
    to the network, and no cache file is looked up or read. *)
Lemma requestFont_cache_off_twice net o url format w body :
  cache o = false →
  net url (formatAgents o !! format) = Some body →
  let file := cacheFile (getCacheKey url format) in
  let agent := formatAgents o !! format in
  trace (requestFont net o (Some url) format
           (requestFont net o (Some url) format w).1).1
  = trace w ++ [HttpGet url agent; FsWrite file body;
                HttpGet url agent; FsWrite file body].
Proof.
  intros Hcache Hnet file agent.
  rewrite !(requestFont_uncached net o url format _ body Hcache Hnet).
  simpl. now rewrite <- app_assoc.
Qed.

(** With [cache] switched on, the second fetch is served from the cache
    file the first one wrote. *)
Lemma requestFont_cache_on_twice net o url format w c body :
  cache o = true →
  disk w !! cacheFile (getCacheKey url format) = None →
  net url (formatAgents o !! format) = Some (String c body) →
  let w1 := (requestFont net o (Some url) format w).1 in
  let file := cacheFile (getCacheKey url format) in
  trace w1 = trace w ++ [FsExists file; HttpGet url (formatAgents o !! format);
                         FsWrite file (String c body)]
  ∧ requestFont net o (Some url) format w1
    = ({| disk := disk w1; trace := trace w1 ++ [FsExists file; FsRead file] |},
       Returned (String c body)).
Proof.
  intros Hcache Hmiss Hnet.
  assert (requestFont net o (Some url) format w
          = ({| disk := <[cacheFile (getCacheKey url format) := String c body]> (disk w);
                trace := trace w ++ [FsExists (cacheFile (getCacheKey url format));
                                     HttpGet url (formatAgents o !! format);
                                     FsWrite (cacheFile (getCacheKey url format))
                                             (String c body)] |},
             Returned (String c body))) as ->.
  { unfold requestFont, requestFont_start. rewrite Hcache.
    unfold getFromCache. rewrite Hmiss. simpl.
    unfold requestFont_resume. simpl. rewrite Hnet. unfold saveToCache. simpl.
    now rewrite <- !app_assoc. }
  simpl. split; [reflexivity|].
  unfold requestFont, requestFont_start. rewrite Hcache.
  unfold getFromCache. simpl. rewrite lookup_insert_eq. unfold log. simpl.
  now rewrite <- !app_assoc.
Qed.

(** ** Request strings *)

(** C4, as stated, fails: a descriptor without a family leaves a [null]
    entry in the array, which therefore has one element more than there
    are descriptors with a family. *)
Lemma createRequestStrings_keeps_null :
  createRequestStrings nameless_options
  = [None; Some "https://fonts.googleapis.com/css?family=Roboto:400,700&subset=latin"]
  ∧ createRequestStrings nameless_options
    ≠ map Some (buildRequestUrls_skipping nameless_options)
  ∧ length (createRequestStrings nameless_options)
    ≠ length (buildRequestUrls_skipping nameless_options).
Proof. repeat split; vm_compute; discriminate. Qed.

(** C4, amended.  [createRequestStrings] has one entry for every
    descriptor, in the order of the descriptors: a URL of the service
    for a descriptor whose family is a non-empty string, and [null] for
    any other descriptor.  Its URLs alone, in order, are those of the
    descriptors that have a family. *)
Theorem createRequestStrings_entry_per_descriptor (o : Options) :
  length (createRequestStrings o) = length (fonts o)
  ∧ (∀ i item, fonts o !! i = Some item →
       (truthy_string (family item) = true →
        ∃ url, createRequestStrings o !! i = Some (Some url)
               ∧ startsWith url "https://fonts.googleapis.com/css?family=" = true)
       ∧ (truthy_string (family item) = false →
          createRequestStrings o !! i = Some None))
  ∧ omap id (createRequestStrings o) = buildRequestUrls_skipping o.
Proof.
  unfold createRequestStrings, buildRequestUrls_skipping. split; [|split].
  - apply length_map.
  - intros i item Hi. rewrite list_lookup_fmap, Hi. simpl.
    pose proof (createRequestString_family item) as Hitem.
    destruct (createRequestString item) as [url|].
    + destruct Hitem as [Hfam Hurl]. split; [eauto | congruence].
    + split; [congruence | reflexivity].
  - induction (fonts o) as [|item items IH]; simpl; [reflexivity|].
    unfold omap in IH. now destruct (createRequestString item); rewrite IH.
Qed.

Lemma createRequestStrings_entry_per_descriptor_witness :
  createRequestStrings nameless_options !! 0 = Some None
  ∧ ∃ url, createRequestStrings nameless_options !! 1 = Some (Some url).
Proof.
  destruct (createRequestStrings_entry_per_descriptor nameless_options)
    as (_ & Hentry & _).
  split.
  - exact (proj2 (Hentry 0 nameless eq_refl) eq_refl).
  - destruct (proj1 (Hentry 1 roboto eq_refl) eq_refl) as (url & Hurl & _).
    exists url. exact Hurl.
Defined.

(** ** Replacing a reference *)

Lemma GetSubstitution_plain matched before after r :
  included dollar r = false → GetSubstitution matched before after r = r.
Proof.
  induction r as [|c r IH]; simpl; [reflexivity|].
  destruct (decide (c = dollar)); [discriminate|].
  intros H. now rewrite IH.
Qed.

(** Replacing a text by itself changes nothing, provided the text holds
    no dollar sign. *)
Lemma replace_self s u : included dollar u = false → replace s u u = s.
Proof.
  intros Hplain. unfold replace.
  destruct (indexOf u s) as [pos|] eqn:Hpos; [|reflexivity].
  rewrite GetSubstitution_plain by assumption.
  symmetry. now apply indexOf_split.
Qed.

Lemma replace_each_self us : ∀ css,
  Forall (λ u, included dollar u = false) us → replace_each css us us = css.
Proof.
  induction us as [|u us IH]; intros css Hplain; simpl; [reflexivity|].
  apply Forall_cons in Hplain as [Hu Hus].
  rewrite replace_self by assumption. now apply IH.
Qed.



(** ** References that are inlined already *)

Lemma start_each_inlined o us : ∀ w,
  Forall (λ u, startsWith u data_prefix = true) us →
  start_each (requestFontFile_start o) us w = (w, map Fulfilled us).
Proof.
  induction us as [|u us IH]; intros w Hus; simpl; [reflexivity|].
  apply Forall_cons in Hus as [Hu Hus].
  unfold requestFontFile_start at 1. rewrite Hu. now rewrite IH.
Qed.

Lemma requestFontFiles_inlined net schedule o us w :
  Forall (λ u, startsWith u data_prefix = true) us →
  requestFontFiles net schedule o us w = (w, Returned us).
Proof.
  intros Hus. unfold requestFontFiles, for_await.
  rewrite start_each_inlined by assumption.
  rewrite deliver_settled
    by (apply Forall_fmap, Forall_true; intros u rq; discriminate).
  now rewrite await_each_fulfilled.
Qed.

(** [encodeFonts] with [encode] switched on, in terms of the references
    of the text. *)
Lemma encodeFonts_references net schedule o css w :
  encode o = true →
  encodeFonts net schedule o css w
  = match references css with
    | [] => (w, Threw (NullProperty "map"))
    | _ =>
        match requestFontFiles net schedule o (references css) w with
        | (w1, Returned fontsEncoded) =>
            (w1, Returned (replace_each css (references css) fontsEncoded))
        | (w1, Threw e) => (w1, Threw e)
        | (w1, Hung) => (w1, Hung)
        end
    end.
Proof.
  intros Hencode. unfold encodeFonts. rewrite Hencode.
  pose proof (fontUrls_references css) as Hrefs.
  destruct (UrlRegex.str_match css) as [matches|].
  - destruct Hrefs as [-> Hne]. now destruct (references css).
  - now rewrite Hrefs.
Qed.

(** C8, as stated, fails twice over: a data URI that holds [$$] is
    rewritten with a single dollar sign, and a text with no reference at
    all makes [encodeFonts] throw. *)
Lemma encodeFonts_inlined_changed :
  references dollar_css = [String dquote "data:application/x$$" +:+ String dquote ""]
  ∧ (∀ net schedule w,
       encodeFonts net schedule sample_options dollar_css w
       = (w, Returned ("url(" +:+ String dquote "data:application/x$"
                              +:+ String dquote ")")))
  ∧ "url(" +:+ String dquote "data:application/x$" +:+ String dquote ")" ≠ dollar_css
  ∧ (∀ net schedule w,
       encodeFonts net schedule sample_options "" w = (w, Threw (NullProperty "map"))).
Proof.
  assert (references dollar_css
          = [String dquote "data:application/x$$" +:+ String dquote ""]) as Hrefs
    by (vm_compute; reflexivity).
  split; [exact Hrefs|]. split; [|split].
  - intros net schedule w. rewrite encodeFonts_references, Hrefs by reflexivity.
    rewrite requestFontFiles_inlined by (repeat constructor).
    vm_compute. reflexivity.
  - discriminate.
  - reflexivity.
Qed.

(** C8, amended.  On a text that has at least one [url(...)] reference,
    all of whose references start like an inlined data URI and hold no
    dollar sign, [encodeFonts] returns the text as it is and touches
    neither the network nor the cache: the world, its trace of events
    included, is the one it was given. *)
Theorem encodeFonts_inlined_unchanged net schedule o css w :
  references css ≠ [] →
  Forall (λ fontUrl, startsWith fontUrl data_prefix = true
                     ∧ included dollar fontUrl = false)
         (references css) →
  encodeFonts net schedule o css w = (w, Returned css).
Proof.
  intros Hsome Hrefs. destruct (encode o) eqn:Hencode.
  - rewrite encodeFonts_references by assumption.
    rewrite requestFontFiles_inlined
      by (eapply Forall_impl; [exact Hrefs | now intros u [H _]]).
    rewrite replace_each_self
      by (eapply Forall_impl; [exact Hrefs | now intros u [_ H]]).
    now destruct (references css).
  - unfold encodeFonts. now rewrite Hencode.
Qed.

Lemma encodeFonts_inlined_unchanged_witness :
  encodeFonts sample_net [0] sample_options inlined_css empty_world
  = (empty_world, Returned inlined_css).
Proof.
  assert (references inlined_css
          = [String dquote "data:application/x-font-woff2;base64,Zm9v"
             +:+ String dquote ""]) as Hrefs by (vm_compute; reflexivity).
  apply (encodeFonts_inlined_unchanged sample_net [0] sample_options inlined_css
           empty_world); rewrite Hrefs.
  - discriminate.
  - repeat constructor.
Defined.

(** ** Texts without a reference *)

(** C10.  With [encode] switched on, a text in which the expression
    finds no [url(...)] makes [encodeFonts] throw the TypeError of
    calling [map] on [null], as [css.match(regex)] is; the text is not
    returned, and nothing is fetched. *)
Theorem encodeFonts_without_reference_throws net schedule o css w :
  encode o = true →
  references css = [] →
  UrlRegex.str_match css = None
  ∧ encodeFonts net schedule o css w = (w, Threw (NullProperty "map"))
  ∧ (encodeFonts net schedule o css w).2 ≠ Returned css.
Proof.
  intros Hencode Hnone. split.
  - pose proof (fontUrls_references css) as Hrefs.
    destruct (UrlRegex.str_match css); [|reflexivity].
    now destruct Hrefs.
  - rewrite encodeFonts_references, Hnone by assumption.
    split; [reflexivity | discriminate].
Qed.

Lemma encodeFonts_without_reference_throws_witness :
  encodeFonts sample_net [] sample_options "" empty_world
  = (empty_world, Threw (NullProperty "map"))
  ∧ encodeFonts sample_net [] sample_options "body{color:red}" empty_world
    = (empty_world, Threw (NullProperty "map")).
Proof.
  split.
  - exact (proj1 (proj2 (encodeFonts_without_reference_throws sample_net []
                           sample_options "" empty_world eq_refl eq_refl))).
  - refine (proj1 (proj2 (encodeFonts_without_reference_throws sample_net []
                            sample_options "body{color:red}" empty_world eq_refl _))).
    apply references_without_paren. vm_compute. reflexivity.
Defined.

(** ** References of an unknown format *)

(** The values a list of references resolves to, each on its own. *)
Lemma resolved_values net o w us :
  Forall (λ u, ∃ font, (requestFontFile net o u w).2 = Returned font) us →
  ∃ fonts', Forall2 (λ u font, answer net (requestFontFile_start o u w).2
                               = Fulfilled font) us fonts'.
Proof.
  induction 1 as [|u us [font Hu] _ [fonts' IH]].
  - exists []. constructor.
  - exists (font :: fonts'). constructor; [|assumption].
    rewrite requestFontFile_outcome in Hu. now apply outcome_returned.
Qed.

(** C5, as stated, fails: with no format configured, no format name
    ends the URL of a reference, and yet nothing is thrown; the
    expression built from no name matches the end of every text, and the
    reference is fetched and inlined under the empty format. *)
Lemma encodeFonts_without_formats_inlines :
  formats formatless_options = []
  ∧ startsWith "http://x/f.svg" data_prefix = false
  ∧ (encodeFonts echo_net [0] formatless_options "a{url(http://x/f.svg)}"
       empty_world).2
    = Returned ("a{url(" +:+ dataUri "" "foo" +:+ ")}").
Proof. repeat split; vm_compute; reflexivity. Qed.

(** C5, amended.  Let the configured formats be at least one, with
    names that are plain text to a regular expression.  A reference that
    is no data URI and whose URL ends with none of these names makes
    [requestFontFile] throw before anything is fetched; what it throws
    is the TypeError of indexing the [null] match, the code having no
    error of its own for a format that cannot be inferred.
    [encodeFonts] then never returns a text, whatever the network, the
    cache and the order of the answers; and what its caller catches is
    that very TypeError as soon as the references before this one
    resolve. *)
Theorem encodeFonts_unknown_format_throws
    net schedule o css w before fontUrl after :
  encode o = true →
  formats o ≠ [] →
  Forall (λ f, plain_name f = true) (formats o) →
  references css = before ++ fontUrl :: after →
  startsWith fontUrl data_prefix = false →
  (∀ f start, f ∈ formats o → fontUrl ≠ start +:+ f) →
  requestFontFile net o fontUrl w = (w, Threw (NullProperty "1"))
  ∧ (∀ css', (encodeFonts net schedule o css w).2 ≠ Returned css')
  ∧ (fair (length before) schedule →
     Forall (λ u, ∃ font, (requestFontFile net o u w).2 = Returned font) before →
     (encodeFonts net schedule o css w).2 = Threw (NullProperty "1")).
Proof.
  intros Hencode Hsome _ Hrefs Hdata Hending.
  assert (match_suffix (alternatives (formats o)) fontUrl = None) as Hformat.
  { apply match_suffix_none. intros start ending Heq Hin.
    destruct (formats o) as [|f fs]; [now destruct Hsome|].
    exact (Hending ending start Hin Heq). }
  assert (requestFontFile_start o fontUrl w = (w, Rejected (NullProperty "1")))
    as Hstart by (unfold requestFontFile_start; now rewrite Hdata, Hformat).
  destruct (requestFontFiles_lookup net schedule o (before ++ fontUrl :: after) w)
    as (settled & Hfiles & Hlook).
  assert (settled !! length before = Some (Rejected (NullProperty "1"))) as Hrej.
  { rewrite Hlook, list_lookup_middle by reflexivity. simpl.
    rewrite Hstart. now destruct (bool_decide _). }
  assert ((encodeFonts net schedule o css w).2
          = match await_each settled with
            | Returned fonts' =>
                Returned (replace_each css (before ++ fontUrl :: after) fonts')
            | Threw e => Threw e
            | Hung => Hung
            end) as ->.
  { rewrite encodeFonts_references, Hrefs by assumption.
    destruct (requestFontFiles _ _ _ _ _) as [w1 outcome]. simpl in Hfiles.
    subst outcome. now destruct before, (await_each settled). }
  split; [|split].
  - unfold requestFontFile. now rewrite Hstart.
  - intros css'.
    pose proof (λ vs, await_each_never_returns settled _ _ vs Hrej) as Hnever.
    destruct (await_each settled) as [fonts'|e|]; try discriminate.
    now destruct (Hnever fonts').
  - intros Hfair Hbefore.
    destruct (resolved_values net o w before Hbefore) as [fonts' Hfonts].
    rewrite (await_each_first_rejected settled fonts' (NullProperty "1"));
      [reflexivity | | now rewrite (Forall2_length _ _ _ Hfonts) in Hrej].
    intros i font Hi.
    destruct (Forall2_lookup_r _ _ _ _ _ Hfonts Hi) as (u & Hu & Hanswer).
    rewrite Hlook, lookup_app_l, Hu by (now apply lookup_lt_Some in Hu). simpl.
    rewrite bool_decide_eq_true_2, Hanswer; [reflexivity|].
    apply Hfair. now apply lookup_lt_Some in Hu.
Qed.

Lemma encodeFonts_unknown_format_throws_witness :
  (encodeFonts sample_net [0] sample_options
     "a{url(http://x/f.woff2)} b{url(http://x/f.svg)}" empty_world).2
  = Threw (NullProperty "1").
Proof.
  assert (match_suffix (formats sample_options) "http://x/f.svg" = None) as Hnone
    by (vm_compute; reflexivity).
  refine (proj2 (proj2 (encodeFonts_unknown_format_throws sample_net [0] sample_options
            "a{url(http://x/f.woff2)} b{url(http://x/f.svg)}" empty_world
            ["http://x/f.woff2"] "http://x/f.svg" []
            eq_refl _ _ _ _ _)) _ _).
  - discriminate.
  - repeat constructor.
  - vm_compute. reflexivity.
  - vm_compute. reflexivity.
  - intros f start Hf Heq.
    exact (proj1 (match_suffix_none _ _) Hnone start f Heq Hf).
  - intros i Hi. simpl in Hi. destruct i as [|i]; [left | lia].
  - repeat constructor. eexists. vm_compute. reflexivity.
Defined.

(** An earlier reference whose fetch fails is what the caller catches
    instead: the loop awaits the promises in order. *)
Example encodeFonts_earlier_failure :
  (encodeFonts sample_net [0] sample_options
     "a{url(http://x/h.woff2)} b{url(http://x/f.svg)}" empty_world).2
  = Threw (RequestFailed "http://x/h.woff2").
Proof. vm_compute. reflexivity. Qed.

(** ** Replacing every reference *)










(** The layout of the text on which C1 fails: the URL in the comment is
    part of the text before the first reference, not a reference. *)
Example layout_comment :
  layout "/*http://x/f.woff2*/ a{url(http://x/f.woff2)} b{URL(http://x/f.woff2)}"
  = ("/*http://x/f.woff2*/ a{url(",
     [("http://x/f.woff2", ")} b{URL("); ("http://x/f.woff2", ")}")]).
Proof. vm_compute. reflexivity. Qed.



(** ** The constructor *)

(** C3, as stated, fails: the constructor replaces [formatAgents] as a
    whole, so the default agents of the formats the user did not
    mention are lost, whereas a deep merge keeps them. *)
Lemma constructor_not_deep_merge :
  (∃ resolved,
     constructor no_files one_agent = inr resolved
     ∧ resolved !! "formatAgents" = Some (JObj [("woff2", JStr "Custom/1.0")]))
  ∧ deep_merged_options one_agent !! "formatAgents"
    = Some (JObj [("eot", JStr agent_eot); ("ttf", JStr agent_ttf);
                  ("woff", JStr agent_woff); ("woff2", JStr "Custom/1.0")])
  ∧ constructor no_files one_agent ≠ inr (deep_merged_options one_agent).
Proof.
  split; [|split].
  - eexists. split; [reflexivity|]. vm_compute. reflexivity.
  - vm_compute. reflexivity.
  - intros H.
    apply (f_equal (λ r : Exn + gmap string JsValue,
                      match r with
                      | inr m => m !! "formatAgents"
                      | inl _ => None
                      end)) in H.
    vm_compute in H. discriminate H.
Qed.

(** What [Object.assign] leaves under a key: the source's value if the
    source has the key, the target's otherwise. *)
Lemma assign_source_lookup target source key :
  assign_source target source !! key
  = match own_property source key with
    | Some v => Some v
    | None => target !! key
    end.
Proof.
  unfold assign_source, own_property.
  induction (own_entries source) as [|kv entries IH] using rev_ind; [reflexivity|].
  rewrite !fold_left_app. simpl. unfold assign_entry at 1.
  destruct (decide (kv.1 = key)) as [<-|Hne].
  - apply lookup_insert_eq.
  - now rewrite lookup_insert_ne.
Qed.

Lemma Object_assign_lookup defaults options key :
  Object_assign ∅ [defaults; options] !! key
  = match own_property options key with
    | Some v => Some v
    | None => own_property defaults key
    end.
Proof.
  unfold Object_assign. simpl. rewrite !assign_source_lookup.
  destruct (own_property options key); [reflexivity|].
  now destruct (own_property defaults key).
Qed.

(** C3, amended.  Given an object, the constructor resolves the options
    by a merge that is one level deep: a key the object has takes the
    object's value as a whole, nested objects included, and any other
    key has its default value.  This holds of both versions of the
    constructor. *)
Theorem constructor_shallow_merge env dirname options :
  typeof options = TObject →
  (∃ resolved,
     constructor env options = inr resolved
     ∧ ∀ key, resolved !! key
              = match own_property options key with
                | Some v => Some v
                | None => own_property defaultOptions key
                end)
  ∧ (∃ resolved,
       Legacy.constructor env dirname options = inr resolved
       ∧ ∀ key, resolved !! key
                = match own_property options key with
                  | Some v => Some v
                  | None => own_property Legacy.defaultOptions key
                  end).
Proof.
  intros Htype. unfold constructor, Legacy.constructor.
  destruct options; try discriminate Htype;
    split; eexists; (split; [reflexivity|]); intros key;
    apply Object_assign_lookup.
Qed.

Lemma constructor_shallow_merge_witness :
  ∃ resolved,
    constructor no_files one_agent = inr resolved
    ∧ resolved !! "formatAgents" = Some (JObj [("woff2", JStr "Custom/1.0")])
    ∧ resolved !! "chunkName" = Some (JStr "google-fonts").
Proof.
  destruct (proj1 (constructor_shallow_merge no_files "" one_agent eq_refl))
    as (resolved & Hctor & Hkeys).
  exists resolved. split; [exact Hctor|].
  split; [exact (Hkeys "formatAgents") | exact (Hkeys "chunkName")].
Defined.

(** C9.  Given a path, the constructor throws the error of
    [fs.readFileSync] when no file is there, and the error of the parser
    of the file's format when the file's text is ill-formed; in either
    case no options are resolved.  This holds of both versions of the
    constructor. *)
Theorem constructor_config_file_errors env dirname path :
  (readFile env path = None →
   constructor env (JStr path) = inl (ENOENT path)
   ∧ Legacy.constructor env dirname (JStr path) = inl (ENOENT path))
  ∧ (∀ file,
       readFile env path = Some file → decode_file env path file = None →
       constructor env (JStr path) = inl (SyntaxError (parser_name path))
       ∧ Legacy.constructor env dirname (JStr path)
         = inl (SyntaxError (parser_name path)))
  ∧ (∀ resolved,
       (readFile env path = None
        ∨ ∃ file, readFile env path = Some file ∧ decode_file env path file = None) →
       constructor env (JStr path) ≠ inr resolved
       ∧ Legacy.constructor env dirname (JStr path) ≠ inr resolved).
Proof.
  assert (readFile env path = None →
          constructor env (JStr path) = inl (ENOENT path)
          ∧ Legacy.constructor env dirname (JStr path) = inl (ENOENT path)) as Hread.
  { intros Hnone. unfold constructor, Legacy.constructor, readFileSync. simpl.
    now rewrite Hnone. }
  assert (∀ file,
            readFile env path = Some file → decode_file env path file = None →
            constructor env (JStr path) = inl (SyntaxError (parser_name path))
            ∧ Legacy.constructor env dirname (JStr path)
              = inl (SyntaxError (parser_name path))) as Hparse.
  { intros file Hfile Hbad.
    unfold constructor, Legacy.constructor, readFileSync, decode_file, parser_name in *.
    simpl. rewrite Hfile. simpl.
    destruct (is_neon path); unfold parse_with; now rewrite Hbad. }
  split; [exact Hread|]. split; [exact Hparse|].
  intros resolved [Hnone|(file & Hfile & Hbad)].
  - destruct (Hread Hnone) as [-> ->]. split; discriminate.
  - destruct (Hparse file Hfile Hbad) as [-> ->]. split; discriminate.
Qed.

Lemma constructor_config_file_errors_witness :
  constructor sample_env (JStr "missing.json") = inl (ENOENT "missing.json")
  ∧ constructor sample_env (JStr "fonts.json") = inl (SyntaxError "JSON.parse").
Proof.
  split.
  - exact (proj1 (proj1 (constructor_config_file_errors sample_env "" "missing.json")
                    eq_refl)).
  - exact (proj1 (proj1 (proj2 (constructor_config_file_errors sample_env ""
                                  "fonts.json")) "{" eq_refl eq_refl)).
Defined.

(** A well-formed file without the plugin's key resolves to the defaults. *)
Example constructor_defaults :
  ∃ resolved, constructor sample_env (JStr "fonts.neon") = inr resolved
              ∧ resolved !! "chunkName" = Some (JStr "google-fonts").
Proof. eexists. split; [reflexivity|]. vm_compute. reflexivity. Qed.

(** The key of the plugin is found at any depth of the file, the first
    match in key order winning. *)
Example getConfig_depth_first :
  getConfig (JObj [("name", JStr "app");
                   ("config", JObj [("google-fonts-plugin", JObj [("cache", JBool false)])]);
                   ("google-fonts-plugin", JObj [("cache", JBool true)])])
  = JObj [("cache", JBool false)].
Proof. reflexivity. Qed.

(** * More of the plugin *)

(** ** The cache directory *)

Lemma cacheFile_inj key1 key2 : cacheFile key1 = cacheFile key2 → key1 = key2.
Proof.
  unfold cacheFile. intros Heq.
  eapply (inj (String.append _)), (inj (String.append _)), Heq.
Qed.

(** X1.  What [saveToCache] stores under a key is what [getFromCache]
    reads back under that key; the other keys read as before; and a
    second save under the key replaces the first. *)
Theorem getFromCache_saveToCache key contents w :
  (getFromCache key (saveToCache key contents w)).2 = Some contents
  ∧ (∀ other, other ≠ key →
       (getFromCache other (saveToCache key contents w)).2 = (getFromCache other w).2)
  ∧ (∀ newer,
       disk (saveToCache key newer (saveToCache key contents w))
       = disk (saveToCache key newer w)).
Proof.
  split; [|split].
  - rewrite getFromCache_value. simpl. apply lookup_insert_eq.
  - intros other Hne. rewrite !getFromCache_value. simpl.
    apply lookup_insert_ne. intros Heq. apply Hne. symmetry. now apply cacheFile_inj.
  - intros newer. simpl. apply insert_insert_eq.
Qed.

(** ** One fetch *)

(** X2.  With [cache] switched on, a request whose cache file is there
    and not empty is answered from the file: the contents are returned,
    the disk is looked at and read and not written, and the network is
    not asked, so that the fetch succeeds even when the service is
    down. *)
Theorem requestFont_cache_hit net o url format w c contents :
  cache o = true →
  disk w !! cacheFile (getCacheKey url format) = Some (String c contents) →
  requestFont net o (Some url) format w
  = ({| disk := disk w;
        trace := trace w ++ [FsExists (cacheFile (getCacheKey url format));
                             FsRead (cacheFile (getCacheKey url format))] |},
     Returned (String c contents)).
Proof.
  intros Hcache Hhit. unfold requestFont, requestFont_start. rewrite Hcache.
  unfold getFromCache. rewrite Hhit. unfold log. simpl.
  now rewrite <- app_assoc.
Qed.

Lemma requestFont_cache_hit_witness :
  (requestFont down_net sample_options (Some "http://x/f.woff2") "woff2" warm_world).2
  = Returned "foobar".
Proof.
  assert (disk warm_world !! cacheFile (getCacheKey "http://x/f.woff2" "woff2")
          = Some "foobar") as Hhit by apply lookup_singleton_eq.
  now rewrite (requestFont_cache_hit down_net sample_options "http://x/f.woff2" "woff2"
                 warm_world "f" "oobar" eq_refl Hhit).
Defined.

(** X3.  A request that the cache does not answer and that the service
    fails makes [requestFont] throw the error of the request, and
    nothing is stored: the disk is as it was. *)
Theorem requestFont_request_fails net o url format w :
  cache o = false ∨ disk w !! cacheFile (getCacheKey url format) = None →
  net url (formatAgents o !! format) = None →
  (requestFont net o (Some url) format w).2 = Threw (RequestFailed url)
  ∧ disk (requestFont net o (Some url) format w).1 = disk w.
Proof.
  intros Hmiss Hnet. unfold requestFont, requestFont_start.
  destruct (cache o) eqn:Hcache.
  - destruct Hmiss as [Hoff|Hmiss]; [discriminate|].
    unfold getFromCache. rewrite Hmiss. simpl.
    unfold requestFont_resume. simpl. now rewrite Hnet.
  - simpl. unfold requestFont_resume. simpl. now rewrite Hnet.
Qed.

Lemma requestFont_request_fails_witness :
  (requestFont down_net sample_options (Some "http://x/f.woff2") "woff2" empty_world).2
  = Threw (RequestFailed "http://x/f.woff2")
  ∧ disk (requestFont down_net sample_options (Some "http://x/f.woff2") "woff2"
            empty_world).1 = ∅.
Proof.
  apply (requestFont_request_fails down_net sample_options "http://x/f.woff2" "woff2"
           empty_world).
  - right. apply lookup_empty.
  - reflexivity.
Defined.

(** X4.  With [cache] switched on, a fetch that the service answers with
    a body that is not empty makes every later fetch of the same request
    return that body from the cache file, without any request, whatever
    has become of the service. *)
Theorem requestFont_then_cached net net' o url format w c body :
  cache o = true →
  disk w !! cacheFile (getCacheKey url format) = None →
  net url (formatAgents o !! format) = Some (String c body) →
  let w1 := (requestFont net o (Some url) format w).1 in
  (requestFont net o (Some url) format w).2 = Returned (String c body)
  ∧ requestFont net' o (Some url) format w1
    = ({| disk := disk w1;
          trace := trace w1 ++ [FsExists (cacheFile (getCacheKey url format));
                                FsRead (cacheFile (getCacheKey url format))] |},
       Returned (String c body)).
Proof.
  intros Hcache Hmiss Hnet w1.
  assert (requestFont net o (Some url) format w
          = ({| disk := <[cacheFile (getCacheKey url format) := String c body]> (disk w);
                trace := trace w ++ [FsExists (cacheFile (getCacheKey url format));
                                     HttpGet url (formatAgents o !! format);
                                     FsWrite (cacheFile (getCacheKey url format))
                                             (String c body)] |},
             Returned (String c body))) as Hfirst.
  { unfold requestFont, requestFont_start. rewrite Hcache.
    unfold getFromCache. rewrite Hmiss. simpl.
    unfold requestFont_resume. simpl. rewrite Hnet. unfold saveToCache. simpl.
    now rewrite <- !app_assoc. }
  subst w1. rewrite Hfirst. split; [reflexivity|].
  unfold requestFont, requestFont_start. rewrite Hcache.
  unfold getFromCache. simpl. rewrite lookup_insert_eq. unfold log. simpl.
  now rewrite <- app_assoc.
Qed.

Lemma requestFont_then_cached_witness :
  (requestFont down_net sample_options (Some "http://x/f.woff2") "woff2"
     (requestFont sample_net sample_options (Some "http://x/f.woff2") "woff2"
        empty_world).1).2
  = Returned "foobar".
Proof.
  destruct (requestFont_then_cached sample_net down_net sample_options
              "http://x/f.woff2" "woff2" empty_world "f" "oobar"
              eq_refl (lookup_empty _) eq_refl) as [_ Hsecond].
  now rewrite Hsecond.
Defined.

(** X5.  An empty body is stored and never served: with [cache] switched
    on, a fetch answered with the empty text writes an empty cache file,
    and the next fetch of the same request reads that file, takes it for
    a miss and asks the network again. *)
Theorem requestFont_empty_body_refetched net o url format w :
  cache o = true →
  disk w !! cacheFile (getCacheKey url format) = None →
  net url (formatAgents o !! format) = Some "" →
  let file := cacheFile (getCacheKey url format) in
  let agent := formatAgents o !! format in
  let w1 := (requestFont net o (Some url) format w).1 in
  disk w1 !! file = Some ""
  ∧ trace (requestFont net o (Some url) format w1).1
    = trace w1 ++ [FsExists file; FsRead file; HttpGet url agent; FsWrite file ""].
Proof.
  intros Hcache Hmiss Hnet file agent w1. subst file agent w1.
  assert (requestFont net o (Some url) format w
          = ({| disk := <[cacheFile (getCacheKey url format) := ""]> (disk w);
                trace := trace w ++ [FsExists (cacheFile (getCacheKey url format));
                                     HttpGet url (formatAgents o !! format);
                                     FsWrite (cacheFile (getCacheKey url format)) ""] |},
             Returned "")) as ->.
  { unfold requestFont, requestFont_start. rewrite Hcache.
    unfold getFromCache. rewrite Hmiss. simpl.
    unfold requestFont_resume. simpl. rewrite Hnet. unfold saveToCache. simpl.
    now rewrite <- !app_assoc. }
  simpl. split; [apply lookup_insert_eq|].
  unfold requestFont, requestFont_start. rewrite Hcache.
  unfold getFromCache. simpl. rewrite lookup_insert_eq. unfold log. simpl.
  unfold requestFont_resume. simpl. rewrite Hnet. unfold saveToCache. simpl.
  now rewrite <- !app_assoc.
Qed.

Lemma requestFont_empty_body_refetched_witness :
  filter (λ e, is_get e = true)
    (trace (requestFont empty_net sample_options (Some "http://x/f.woff2") "woff2"
              (requestFont empty_net sample_options (Some "http://x/f.woff2") "woff2"
                 empty_world).1).1)
  = [HttpGet "http://x/f.woff2" (Some "Edge/14");
     HttpGet "http://x/f.woff2" (Some "Edge/14")].
Proof.
  destruct (requestFont_empty_body_refetched empty_net sample_options
              "http://x/f.woff2" "woff2" empty_world
              eq_refl (lookup_empty _) eq_refl) as [_ Htrace].
  rewrite Htrace. vm_compute. reflexivity.
Defined.

(** ** Stylesheets that cannot be fetched *)

(** X6.  A font descriptor without a family, wherever it stands in the
    configuration, keeps [requestFontsCSS] from returning a stylesheet:
    its [null] request string is rejected by the hash function.  When
    every answer arrives, the call throws. *)
Theorem requestFontsCSS_nameless_fails net schedule o format w i item :
  fonts o !! i = Some item →
  truthy_string (family item) = false →
  failed (requestFontsCSS net schedule o format w).2
  ∧ (fair (length (fonts o)) schedule →
     ∃ e, (requestFontsCSS net schedule o format w).2 = Threw e).
Proof.
  intros Hi Hfamily.
  assert (createRequestStrings o !! i = Some None) as Hnull.
  { unfold createRequestStrings. rewrite list_lookup_fmap, Hi. simpl. f_equal.
    pose proof (createRequestString_family item) as Hitem.
    destruct (createRequestString item); [|reflexivity].
    destruct Hitem as [Hitem _]. congruence. }
  assert (failed (requestFontsCSS net schedule o format w).2) as Hfailed.
  { destruct (requestFontsCSS_lookup net schedule o format w) as (settled & -> & Hlook).
    specialize (Hlook i). rewrite Hnull in Hlook. simpl in Hlook.
    assert (settled !! i = Some (Rejected (InvalidArgType "Hash.update"))) as Hrej
      by now destruct (bool_decide _).
    pose proof (await_each_failed settled i _ Hrej) as Hloop.
    destruct (await_each settled); simpl in *; [|exact I..].
    apply Hloop. discriminate. }
  split; [exact Hfailed|].
  intros Hfair. rewrite requestFontsCSS_fair in * by assumption.
  pose proof (await_each_answered net
                (map (λ rs, (requestFont_start o rs format None w).2)
                     (createRequestStrings o))) as Hnot.
  rewrite map_map in Hnot.
  destruct (await_each _) as [texts|e|]; simpl in *; [contradiction | eauto | congruence].
Qed.

Lemma requestFontsCSS_nameless_fails_witness :
  ∃ e, (requestFontsCSS sample_net [1; 0] nameless_options "woff2" empty_world).2
       = Threw e.
Proof.
  refine (proj2 (requestFontsCSS_nameless_fails sample_net [1; 0] nameless_options
                   "woff2" empty_world 0 nameless eq_refl eq_refl) _).
  intros i Hi. simpl in Hi.
  destruct i as [|[|i]]; [right; left | left | lia].
Defined.

(** X7.  [requestFontsCSS] has no partial result: when the request
    strings before one resolve and that one fails, its error is what the
    call throws, and the texts fetched so far are dropped. *)
Theorem requestFontsCSS_first_failure net schedule o format w before rs after e :
  createRequestStrings o = before ++ rs :: after →
  Forall (λ r, ∃ text, (requestFont net o r format w).2 = Returned text) before →
  (requestFont net o rs format w).2 = Threw e →
  fair (S (length before)) schedule →
  (requestFontsCSS net schedule o format w).2 = Threw e.
Proof.
  intros Hstrings Hbefore Hrs Hfair.
  destruct (requestFontsCSS_lookup net schedule o format w) as (settled & -> & Hlook).
  destruct (fetched_texts net o format w before Hbefore) as [texts Htexts].
  rewrite requestFont_outcome in Hrs. apply outcome_threw in Hrs.
  rewrite (await_each_first_rejected settled texts e); [reflexivity | |].
  - intros i text Hi.
    destruct (Forall2_lookup_r _ _ _ _ _ Htexts Hi) as (r & Hr & Hanswer).
    rewrite Hlook, Hstrings, lookup_app_l, Hr by (now apply lookup_lt_Some in Hr).
    simpl. rewrite bool_decide_eq_true_2, Hanswer; [reflexivity|].
    apply Hfair. apply lookup_lt_Some in Hr. lia.
  - rewrite <- (Forall2_length _ _ _ Htexts).
    rewrite Hlook, Hstrings, list_lookup_middle by reflexivity. simpl.
    rewrite bool_decide_eq_true_2, Hrs; [reflexivity|].
    apply Hfair. lia.
Qed.

Lemma requestFontsCSS_first_failure_witness :
  (requestFontsCSS roboto_net [1; 0] sample_options "woff2" empty_world).2
  = Threw (RequestFailed "https://fonts.googleapis.com/css?family=Open+Sans").
Proof.
  refine (requestFontsCSS_first_failure roboto_net [1; 0] sample_options "woff2"
            empty_world
            [Some "https://fonts.googleapis.com/css?family=Roboto:400,700&subset=latin"]
            (Some "https://fonts.googleapis.com/css?family=Open+Sans") []
            (RequestFailed "https://fonts.googleapis.com/css?family=Open+Sans")
            _ _ _ _).
  - vm_compute. reflexivity.
  - repeat constructor. eexists. vm_compute. reflexivity.
  - vm_compute. reflexivity.
  - intros i Hi. simpl in Hi.
    destruct i as [|[|i]]; [right; left | left | lia].
Defined.

(** ** Request strings without white space *)

Lemma all_units_included p s c :
  all_units p s = true → included c s = true → p c = true.
Proof.
  induction s as [|a s IH]; simpl; [discriminate|].
  intros [Ha Hs]%andb_true_iff. destruct (decide (a = c)) as [<-|]; auto.
Qed.

Lemma whitespace_free_check s :
  all_units (λ c, negb (is_whitespace c)) s = true → whitespace_free s.
Proof.
  intros H c Hc. apply negb_true_iff.
  exact (all_units_included (λ c, negb (is_whitespace c)) s c H Hc).
Qed.

Lemma whitespace_free_app s t :
  whitespace_free s → whitespace_free t → whitespace_free (s +:+ t).
Proof.
  intros Hs Ht c. rewrite included_app. intros [H|H]%orb_true_iff; auto.
Qed.

Lemma replace_whitespace_free s : whitespace_free (replace_whitespace s).
Proof.
  induction s as [|a s IH]; intros c; simpl; [discriminate|].
  destruct (decide _) as [<-|]; [intros _ | apply IH].
  now destruct (is_whitespace a) eqn:Ha.
Qed.

Lemma join_whitespace_free parts :
  Forall whitespace_free parts → whitespace_free (join "," parts).
Proof.
  induction 1 as [|p parts Hp _ IH]; [intros c; discriminate|].
  destruct parts as [|p' parts]; [exact Hp|].
  change (join "," (p :: p' :: parts)) with (p +:+ "," +:+ join "," (p' :: parts)).
  apply whitespace_free_app; [exact Hp|].
  apply whitespace_free_app; [|exact IH].
  apply whitespace_free_check. vm_compute. reflexivity.
Qed.

(** X8.  The request string of a descriptor holds no white space when
    its variants and subsets hold none: every white space of the family
    name has been replaced. *)
Theorem createRequestString_whitespace_free item url :
  createRequestString item = Some url →
  (∀ vs, variants item = Some vs → Forall whitespace_free vs) →
  (∀ ss, subsets item = Some ss → Forall whitespace_free ss) →
  whitespace_free url
  ∧ ∃ c f rest, family item = Some (String c f)
                ∧ url = "https://fonts.googleapis.com/css?family="
                        +:+ replace_whitespace (String c f) +:+ rest.
Proof.
  unfold createRequestString. intros Hurl Hvariants Hsubsets.
  destruct (family item) as [[|c f]|]; try discriminate.
  apply (inj Some) in Hurl. subst url. cbv zeta.
  assert (whitespace_free "https://fonts.googleapis.com/css?family=") as Hhead
    by (apply whitespace_free_check; vm_compute; reflexivity).
  assert (whitespace_free ":") as Hcolon
    by (apply whitespace_free_check; vm_compute; reflexivity).
  assert (whitespace_free "&subset=") as Hsubset
    by (apply whitespace_free_check; vm_compute; reflexivity).
  pose proof (replace_whitespace_free (String c f)) as Hfamily.
  split.
  - pose proof (whitespace_free_app _ _ Hhead Hfamily) as Hbase.
    destruct (variants item) as [vs|], (subsets item) as [ss|].
    + apply whitespace_free_app; [apply whitespace_free_app; [exact Hbase|]|];
        (apply whitespace_free_app; [assumption|]);
        apply join_whitespace_free; eauto.
    + apply whitespace_free_app; [exact Hbase|].
      apply whitespace_free_app; [assumption|].
      apply join_whitespace_free; eauto.
    + apply whitespace_free_app; [exact Hbase|].
      apply whitespace_free_app; [assumption|].
      apply join_whitespace_free; eauto.
    + exact Hbase.
  - exists c, f.
    destruct (variants item) as [vs|], (subsets item) as [ss|].
    + exists (":" +:+ join "," vs +:+ "&subset=" +:+ join "," ss).
      split; [reflexivity|]. now rewrite !append_assoc.
    + exists (":" +:+ join "," vs). split; [reflexivity|]. now rewrite !append_assoc.
    + exists ("&subset=" +:+ join "," ss). split; [reflexivity|]. now rewrite !append_assoc.
    + exists "". split; [reflexivity|]. now rewrite append_nil_r.
Qed.

Lemma createRequestString_whitespace_free_witness :
  whitespace_free "https://fonts.googleapis.com/css?family=Open+Sans".
Proof.
  refine (proj1 (createRequestString_whitespace_free open_sans
                   "https://fonts.googleapis.com/css?family=Open+Sans" eq_refl _ _)).
  - intros vs Hvs. discriminate Hvs.
  - intros ss Hss. discriminate Hss.
Defined.

(** ** The format of a reference *)

Lemma match_suffix_ext alts alts' s :
  (∀ f, f ∈ alts ↔ f ∈ alts') → match_suffix alts s = match_suffix alts' s.
Proof.
  intros Hsame. induction s as [|c s IH]; simpl;
    rewrite (bool_decide_ext _ _ (Hsame _)); [reflexivity|].
  now rewrite IH.
Qed.

Lemma match_suffix_some alts s f :
  match_suffix alts s = Some f →
  f ∈ alts ∧ (∃ start, s = start +:+ f)
  ∧ ∀ start' f', s = start' +:+ f' → f' ∈ alts → String.length f' ≤ String.length f.
Proof.
  induction s as [|c s IH]; simpl.
  - case_bool_decide as Hin; [|discriminate]. intros [= <-].
    split; [assumption|]. split; [now exists ""|].
    intros start' f' Heq _. apply (f_equal String.length) in Heq.
    rewrite length_append in Heq. simpl in *. lia.
  - case_bool_decide as Hin.
    + intros [= <-]. split; [assumption|]. split; [now exists ""|].
      intros start' f' Heq _. apply (f_equal String.length) in Heq.
      rewrite length_append in Heq. lia.
    + intros Hf. destruct (IH Hf) as (Hmem & [start ->] & Hlongest).
      split; [assumption|]. split; [now exists (String c start)|].
      intros [|a start'] f' Heq Hf'.
      * simpl in Heq. now subst f'.
      * injection Heq as _ Heq. now apply (Hlongest start').
Qed.

(** X9.  With format names that are plain text to a regular
    expression, the format inferred for a reference is a configured
    format that ends the URL, and among the configured formats that end
    it the longest one; the order in which the formats are configured
    does not matter. *)
Theorem match_suffix_longest formats1 fontUrl format :
  Forall (λ f, plain_name f = true) formats1 →
  match_suffix formats1 fontUrl = Some format →
  format ∈ formats1
  ∧ (∃ start, fontUrl = start +:+ format)
  ∧ (∀ start' format', fontUrl = start' +:+ format' → format' ∈ formats1 →
       String.length format' ≤ String.length format)
  ∧ (∀ formats2, (∀ f, f ∈ formats1 ↔ f ∈ formats2) →
       match_suffix formats2 fontUrl = Some format).
Proof.
  intros _ Hmatch. destruct (match_suffix_some _ _ _ Hmatch) as (Hmem & Hends & Hlongest).
  repeat split; try assumption.
  intros formats2 Hsame. now rewrite <- (match_suffix_ext formats1 formats2).
Qed.

Lemma match_suffix_longest_witness :
  match_suffix ["woff2"; "woff"; "f2"] "http://x/f.woff2" = Some "woff2"
  ∧ match_suffix ["f2"; "woff"; "woff2"] "http://x/f.woff2" = Some "woff2".
Proof.
  assert (match_suffix ["woff2"; "woff"; "f2"] "http://x/f.woff2" = Some "woff2")
    as Hmatch by (vm_compute; reflexivity).
  split; [exact Hmatch|].
  assert (Forall (λ f, plain_name f = true) ["woff2"; "woff"; "f2"]) as Hplain
    by (repeat constructor).
  apply (match_suffix_longest _ _ _ Hplain Hmatch).
  intros f. rewrite !elem_of_cons, !elem_of_nil. tauto.
Defined.

Lemma last_unit_included s q start ending :
  s +:+ String q "" = start +:+ ending → ending ≠ "" → included q ending = true.
Proof.
  revert s. induction start as [|a start IH]; intros s Heq Hne; simpl in Heq.
  - subst ending. rewrite included_app. simpl.
    rewrite decide_True by reflexivity. apply orb_true_r.
  - destruct s as [|b s]; simpl in Heq.
    + injection Heq as _ Heq. destruct start; [|discriminate].
      simpl in Heq. now subst ending.
    + injection Heq as _ Heq. now apply (IH s).
Qed.

(** X10.  With format names that are plain text to a regular
    expression, a reference whose last code unit occurs in none of the
    configured format names (a reference written in quotes, say) has no
    format: [requestFontFile] throws on the missing match, and neither
    the cache nor the network is touched. *)
Theorem requestFontFile_last_unit_unknown net o fontUrl q w :
  Forall (λ f, plain_name f = true) (formats o) →
  Forall (λ f, f ≠ "" ∧ included q f = false) (alternatives (formats o)) →
  startsWith (fontUrl +:+ String q "") data_prefix = false →
  requestFontFile net o (fontUrl +:+ String q "") w = (w, Threw (NullProperty "1")).
Proof.
  intros _ Hformats Hremote. unfold requestFontFile, requestFontFile_start.
  rewrite Hremote.
  assert (match_suffix (alternatives (formats o)) (fontUrl +:+ String q "") = None) as ->.
  { apply match_suffix_none. intros start ending Heq Hin.
    rewrite Forall_forall in Hformats. destruct (Hformats _ Hin) as [Hne Hq].
    rewrite (last_unit_included _ _ _ _ Heq Hne) in Hq. discriminate. }
  reflexivity.
Qed.

Lemma requestFontFile_last_unit_unknown_witness :
  requestFontFile sample_net sample_options
    (String dquote "http://x/f.woff2" +:+ String dquote "") empty_world
  = (empty_world, Threw (NullProperty "1")).
Proof.
  apply (requestFontFile_last_unit_unknown sample_net sample_options
           (String dquote "http://x/f.woff2") dquote empty_world).
  - repeat constructor.
  - vm_compute. repeat constructor; discriminate.
  - vm_compute. reflexivity.
Defined.

(** ** Data URIs *)

Lemma string_ind3 (P : string → Prop) :
  P "" → (∀ a, P (String a "")) → (∀ a b, P (String a (String b ""))) →
  (∀ a b c s, P s → P (String a (String b (String c s)))) →
  ∀ s, P s.
Proof.
  intros H0 H1 H2 H3 s.
  assert (P s ∧ (∀ a, P (String a s)) ∧ ∀ a b, P (String a (String b s))) as [Hs _].
  { induction s as [|c s (IH0 & IH1 & IH2)]; [easy|].
    split; [apply IH1|]. split; [intros a; apply IH2|]. intros a b. now apply H3. }
  exact Hs.
Qed.

Lemma digit_base64 n :
  included (Base64.digit n)
    "ABCDEFGHIJKLMNOPQRSTUVWXYZabcdefghijklmnopqrstuvwxyz0123456789+/=" = true.
Proof.
  do 64 (destruct n as [|n]; [vm_compute; reflexivity|]).
  vm_compute. reflexivity.
Qed.

Lemma encode_base64_text s : base64_text (Base64.encode s).
Proof.
  induction s as [|a|a b|a b c s IH] using string_ind3; intros x.
  - intros [=].
  - change (Base64.encode (String a ""))
      with (String (Base64.digit (nat_of_ascii a / 4))
              (String (Base64.digit (nat_of_ascii a mod 4 * 16 + 0 / 16)) "==")).
    cbn [included].
    repeat (destruct (decide _) as [<-|_]; [intros _; first [apply digit_base64 | reflexivity]|]).
    intros [=].
  - change (Base64.encode (String a (String b "")))
      with (String (Base64.digit (nat_of_ascii a / 4))
              (String (Base64.digit (nat_of_ascii a mod 4 * 16 + nat_of_ascii b / 16))
                 (String (Base64.digit (nat_of_ascii b mod 16 * 4 + 0 / 64)) "="))).
    cbn [included].
    repeat (destruct (decide _) as [<-|_]; [intros _; first [apply digit_base64 | reflexivity]|]).
    intros [=].
  - change (Base64.encode (String a (String b (String c s))))
      with (String (Base64.digit (nat_of_ascii a / 4))
              (String (Base64.digit (nat_of_ascii a mod 4 * 16 + nat_of_ascii b / 16))
                 (String (Base64.digit (nat_of_ascii b mod 16 * 4 + nat_of_ascii c / 64))
                    (String (Base64.digit (nat_of_ascii c mod 64)) (Base64.encode s))))).
    cbn [included].
    repeat (destruct (decide _) as [<-|_]; [intros _; apply digit_base64|]).
    apply IH.
Qed.

Lemma encode_length s :
  String.length (Base64.encode s) = 4 * ((String.length s + 2) / 3).
Proof.
  induction s as [|a|a b|a b c s IH] using string_ind3; try reflexivity.
  change (String.length (Base64.encode (String a (String b (String c s)))))
    with (4 + String.length (Base64.encode s)).
  rewrite IH.
  change (String.length (String a (String b (String c s)))) with (3 + String.length s).
  replace (3 + String.length s + 2) with (String.length s + 2 + 1 * 3) by lia.
  rewrite Nat.div_add by discriminate. lia.
Qed.

Lemma encode_plain s : included dollar (Base64.encode s) = false.
Proof.
  destruct (included dollar (Base64.encode s)) eqn:Hin; [|reflexivity].
  apply encode_base64_text in Hin. vm_compute in Hin. discriminate.
Qed.

Lemma dataUri_split format font :
  dataUri format font
  = data_prefix +:+ "x-font-" +:+ format +:+ ";base64," +:+ Base64.encode font
    +:+ String dquote "".
Proof. reflexivity. Qed.

Lemma dataUri_inlined format font : startsWith (dataUri format font) data_prefix = true.
Proof. rewrite dataUri_split. apply startsWith_app. Qed.

Lemma dataUri_dollar format font :
  included dollar (dataUri format font) = included dollar format.
Proof.
  rewrite dataUri_split, !included_app, encode_plain.
  assert (included dollar data_prefix = false) as -> by (vm_compute; reflexivity).
  assert (included dollar "x-font-" = false) as -> by (vm_compute; reflexivity).
  assert (included dollar ";base64," = false) as -> by (vm_compute; reflexivity).
  assert (included dollar (String dquote "") = false) as -> by (vm_compute; reflexivity).
  simpl. now rewrite orb_false_r.
Qed.

(** X11.  The data URI of a font: it starts with the prefix by which
    [requestFontFile] recognises an inlined reference; its payload is
    four Base64 digits or padding signs for every three bytes begun; and
    it holds a dollar sign only if the format name does. *)
Theorem dataUri_shape format font :
  startsWith (dataUri format font) data_prefix = true
  ∧ base64_text (Base64.encode font)
  ∧ String.length (Base64.encode font) = 4 * ((String.length font + 2) / 3)
  ∧ included dollar (dataUri format font) = included dollar format.
Proof.
  split; [apply dataUri_inlined|]. split; [apply encode_base64_text|].
  split; [apply encode_length | apply dataUri_dollar].
Qed.

(** ** One reference *)

(** Where the value of a fetch comes from: a cache file that is not
    empty, when the cache is on, or else the service. *)
Lemma requestFont_start_answer net o url format wrap w v :
  answer net (requestFont_start o (Some url) format wrap w).2 = Fulfilled v →
  ∃ body, v = finish wrap body
          ∧ ((cache o = true ∧ body ≠ ""
              ∧ disk w !! cacheFile (getCacheKey url format) = Some body)
             ∨ net url (formatAgents o !! format) = Some body).
Proof.
  unfold requestFont_start. destruct (cache o).
  - pose proof (getFromCache_value (getCacheKey url format) w) as Hvalue.
    destruct (getFromCache _ w) as [w1 [[|c r]|]]; simpl in *.
    + destruct (net url _) as [body|]; [|discriminate].
      intros [= <-]. exists body. auto.
    + intros [= <-]. exists (String c r). split; [reflexivity|]. left. easy.
    + destruct (net url _) as [body|]; [|discriminate].
      intros [= <-]. exists body. auto.
  - simpl. destruct (net url _) as [body|]; [|discriminate].
    intros [= <-]. exists body. auto.
Qed.

(** X12.  With format names that are plain text to a regular
    expression, what [requestFontFile] returns is either the reference
    itself, when it is inlined already, or the data URI, under the
    format inferred from the URL, of a body that is not invented: the
    contents of the cache file of the URL and format, or what the
    service answers to the URL under the agent configured for that
    format. *)
Theorem requestFontFile_returned net o fontUrl w font :
  Forall (λ f, plain_name f = true) (formats o) →
  (requestFontFile net o fontUrl w).2 = Returned font →
  (startsWith fontUrl data_prefix = true ∧ font = fontUrl)
  ∨ ∃ format body,
      startsWith fontUrl data_prefix = false
      ∧ match_suffix (alternatives (formats o)) fontUrl = Some format
      ∧ font = dataUri format body
      ∧ ((cache o = true ∧ body ≠ ""
          ∧ disk w !! cacheFile (getCacheKey fontUrl format) = Some body)
         ∨ net fontUrl (formatAgents o !! format) = Some body).
Proof.
  intros _. rewrite requestFontFile_outcome. intros Hfont%outcome_returned.
  unfold requestFontFile_start in Hfont.
  destruct (startsWith fontUrl data_prefix) eqn:Hinlined.
  - left. simpl in Hfont. now injection Hfont as <-.
  - right. destruct (match_suffix _ fontUrl) as [format|]; [|discriminate].
    destruct (requestFont_start_answer _ _ _ _ _ _ _ Hfont) as (body & -> & Hbody).
    now exists format, body.
Qed.

Lemma requestFontFile_returned_witness :
  ∃ format body,
    match_suffix (alternatives (formats sample_options)) "http://x/f.woff2" = Some format
    ∧ dataUri "woff2" "foobar" = dataUri format body
    ∧ sample_net "http://x/f.woff2" (formatAgents sample_options !! format) = Some body.
Proof.
  assert ((requestFontFile sample_net sample_options "http://x/f.woff2" empty_world).2
          = Returned (dataUri "woff2" "foobar")) as Hfont by (vm_compute; reflexivity).
  assert (Forall (λ f, plain_name f = true) (formats sample_options)) as Hplain
    by (repeat constructor).
  destruct (requestFontFile_returned _ _ _ _ _ Hplain Hfont)
    as [[Hinlined _] | (format & body & _ & Hformat & Huri & [(_ & _ & Hdisk) | Hnet])].
  - vm_compute in Hinlined. discriminate Hinlined.
  - assert (disk empty_world = ∅) as Hempty by reflexivity.
    rewrite Hempty, lookup_empty in Hdisk. discriminate Hdisk.
  - exists format, body. auto.
Defined.

(** X13.  [requestFontFile] leaves its own results alone: a value it has
    returned is, as a reference, inlined already, and comes back as it
    is without any access to the cache or the network, under any
    options. *)
Theorem requestFontFile_result_inlined net o fontUrl w font :
  (requestFontFile net o fontUrl w).2 = Returned font →
  startsWith font data_prefix = true
  ∧ ∀ net' o' w', requestFontFile net' o' font w' = (w', Returned font).
Proof.
  intros Hfont.
  assert (startsWith font data_prefix = true) as Hinlined.
  { rewrite requestFontFile_outcome in Hfont. apply outcome_returned in Hfont.
    unfold requestFontFile_start in Hfont.
    destruct (startsWith fontUrl data_prefix) eqn:Hurl.
    - simpl in Hfont. now injection Hfont as <-.
    - destruct (match_suffix _ fontUrl) as [format|]; [|discriminate].
      destruct (requestFont_start_answer _ _ _ _ _ _ _ Hfont) as (body & -> & _).
      apply dataUri_inlined. }
  split; [assumption|]. intros net' o' w'.
  unfold requestFontFile, requestFontFile_start. now rewrite Hinlined.
Qed.

Lemma requestFontFile_result_inlined_witness :
  requestFontFile down_net uncached_options (dataUri "woff2" "foobar") empty_world
  = (empty_world, Returned (dataUri "woff2" "foobar")).
Proof.
  assert ((requestFontFile sample_net sample_options "http://x/f.woff2" empty_world).2
          = Returned (dataUri "woff2" "foobar")) as Hfont by (vm_compute; reflexivity).
  apply (requestFontFile_result_inlined _ _ _ _ _ Hfont).
Defined.

(** X14.  With [cache] switched on and format names that are plain text
    to a regular expression, the first fetch of a reference stores the
    bytes as the service sent them, not their data URI, and every later
    fetch of the reference builds the same data URI from the file,
    without a request. *)
Theorem requestFontFile_then_cached net net' o fontUrl format w c body :
  cache o = true →
  Forall (λ f, plain_name f = true) (formats o) →
  startsWith fontUrl data_prefix = false →
  match_suffix (alternatives (formats o)) fontUrl = Some format →
  disk w !! cacheFile (getCacheKey fontUrl format) = None →
  net fontUrl (formatAgents o !! format) = Some (String c body) →
  let file := cacheFile (getCacheKey fontUrl format) in
  let w1 := (requestFontFile net o fontUrl w).1 in
  (requestFontFile net o fontUrl w).2 = Returned (dataUri format (String c body))
  ∧ disk w1 = <[file := String c body]> (disk w)
  ∧ requestFontFile net' o fontUrl w1
    = ({| disk := disk w1; trace := trace w1 ++ [FsExists file; FsRead file] |},
       Returned (dataUri format (String c body))).
Proof.
  intros Hcache _ Hremote Hformat Hmiss Hnet file w1. subst file w1.
  assert (requestFontFile net o fontUrl w
          = ({| disk := <[cacheFile (getCacheKey fontUrl format) := String c body]> (disk w);
                trace := trace w ++ [FsExists (cacheFile (getCacheKey fontUrl format));
                                     HttpGet fontUrl (formatAgents o !! format);
                                     FsWrite (cacheFile (getCacheKey fontUrl format))
                                             (String c body)] |},
             Returned (dataUri format (String c body)))) as ->.
  { unfold requestFontFile, requestFontFile_start. rewrite Hremote, Hformat.
    unfold requestFont_start. rewrite Hcache.
    unfold getFromCache. rewrite Hmiss. simpl.
    unfold requestFont_resume. simpl. rewrite Hnet. unfold saveToCache. simpl.
    now rewrite <- !app_assoc. }
  split; [reflexivity|]. split; [reflexivity|].
  unfold requestFontFile, requestFontFile_start. rewrite Hremote, Hformat.
  unfold requestFont_start. rewrite Hcache.
  unfold getFromCache. simpl. rewrite lookup_insert_eq. unfold log. simpl.
  now rewrite <- app_assoc.
Qed.

Lemma requestFontFile_then_cached_witness :
  (requestFontFile down_net sample_options "http://x/f.woff2"
     (requestFontFile sample_net sample_options "http://x/f.woff2" empty_world).1).2
  = Returned (dataUri "woff2" "foobar").
Proof.
  destruct (requestFontFile_then_cached sample_net down_net sample_options
              "http://x/f.woff2" "woff2" empty_world "f" "oobar"
              eq_refl) as (_ & _ & Hsecond).
  - repeat constructor.
  - reflexivity.
  - vm_compute. reflexivity.
  - apply lookup_empty.
  - reflexivity.
  - now rewrite Hsecond.
Defined.

(** ** Every reference of a stylesheet *)

Section Loop.

Context (net : Network) {A : Type} (start : A → World → World * Promise).
Hypothesis start_disk : ∀ x w, disk (start x w).1 = disk w.
Hypothesis start_pure : ∀ x w w', disk w = disk w' → (start x w).2 = (start x w').2.

(** A loop that returns has, position by position, the values of its
    calls, whatever the order of the answers. *)
Lemma for_await_returned schedule xs w vs :
  (for_await net schedule start xs w).2 = Returned vs →
  Forall2 (λ x v, answer net (start x w).2 = Fulfilled v) xs vs.
Proof.
  destruct (for_await_lookup net start start_disk start_pure schedule xs w)
    as (settled & -> & Hlook).
  intros ->%await_each_returned.
  apply Forall2_same_length_lookup_2.
  - apply Nat.le_antisymm; apply Nat.nlt_ge; intros Hlt.
    + destruct (lookup_lt_is_Some_2 xs (length vs) Hlt) as [x Hx].
      pose proof (Hlook (length vs)) as Hi. rewrite Hx, list_lookup_fmap in Hi.
      now rewrite (lookup_ge_None_2 vs (length vs)) in Hi by lia.
    + destruct (lookup_lt_is_Some_2 vs (length xs) Hlt) as [v Hv].
      pose proof (Hlook (length xs)) as Hi. rewrite list_lookup_fmap, Hv in Hi.
      now rewrite (lookup_ge_None_2 xs (length xs)) in Hi by lia.
  - intros i x v Hx Hv. pose proof (Hlook i) as Hi.
    rewrite list_lookup_fmap, Hx, Hv in Hi. simpl in Hi. injection Hi as Hi.
    destruct (bool_decide _); [now symmetry|].
    simpl in Hi. now rewrite <- Hi.
Qed.

(** The answers change the disk only by storing what the service sent
    for a request that was pending. *)
Lemma deliver_disk schedule file : ∀ ps w,
  disk (deliver net schedule ps w).1 !! file = disk w !! file
  ∨ ∃ rq body, Pending rq ∈ ps
               ∧ net (rq_url rq) (rq_agent rq) = Some body
               ∧ file = cacheFile (rq_key rq)
               ∧ disk (deliver net schedule ps w).1 !! file = Some body.
Proof.
  induction schedule as [|i schedule IH]; intros ps w; simpl; [now left|].
  destruct (ps !! i) as [[v|e|rq]|] eqn:Hi; try apply IH.
  assert (∀ p rq', (∀ r, p ≠ Pending r) → Pending rq' ∈ <[i := p]> ps → Pending rq' ∈ ps)
    as Hkept.
  { intros p rq' Hp [j Hj]%list_elem_of_lookup_1.
    destruct (decide (j = i)) as [->|Hne].
    - rewrite list_lookup_insert_eq in Hj by (now apply lookup_lt_Some in Hi).
      injection Hj as Hj. destruct (Hp rq' Hj).
    - rewrite list_lookup_insert_ne in Hj by congruence.
      now apply list_elem_of_lookup_2 in Hj. }
  unfold requestFont_resume. destruct (net (rq_url rq) (rq_agent rq)) as [body|] eqn:Hnet.
  - destruct (IH (<[i := Fulfilled (finish (rq_wrap rq) body)]> ps)
                (saveToCache (rq_key rq) body w))
      as [Hsame | (rq' & body' & Hin & Hnet' & Hfile & Hdisk)].
    + destruct (decide (file = cacheFile (rq_key rq))) as [->|Hne].
      * right. exists rq, body. split; [now apply list_elem_of_lookup_2 in Hi|].
        split; [assumption|]. split; [reflexivity|].
        rewrite Hsame. simpl. apply lookup_insert_eq.
      * left. rewrite Hsame. simpl. now apply lookup_insert_ne.
    + right. exists rq', body'. split; [|easy].
      apply (Hkept (Fulfilled (finish (rq_wrap rq) body))); [discriminate | assumption].
  - destruct (IH (<[i := Rejected (RequestFailed (rq_url rq))]> ps) w)
      as [Hsame | (rq' & body' & Hin & Hnet' & Hfile & Hdisk)]; [now left|].
    right. exists rq', body'. split; [|easy].
    apply (Hkept (Rejected (RequestFailed (rq_url rq)))); [discriminate | assumption].
Qed.

Lemma for_await_disk schedule xs w file :
  disk (for_await net schedule start xs w).1 !! file = disk w !! file
  ∨ ∃ x rq body, x ∈ xs ∧ (start x w).2 = Pending rq
                 ∧ net (rq_url rq) (rq_agent rq) = Some body
                 ∧ file = cacheFile (rq_key rq)
                 ∧ disk (for_await net schedule start xs w).1 !! file = Some body.
Proof.
  unfold for_await.
  destruct (start_each_spec start start_disk start_pure xs w) as [Hdisk Hps].
  destruct (start_each start xs w) as [w1 promises]. simpl in Hdisk, Hps. subst promises.
  pose proof (deliver_disk schedule file (map (λ x, (start x w).2) xs) w1) as Hdeliver.
  destruct (deliver net schedule _ w1) as [w2 settled]. simpl in *.
  rewrite Hdisk in Hdeliver.
  destruct Hdeliver as [Hsame | (rq & body & Hin & Hnet & Hfile & Hbody)]; [now left|].
  right. apply list_elem_of_fmap in Hin as (x & Hx & Hin).
  now exists x, rq, body.
Qed.

(** The answers issue no request. *)
Lemma deliver_requests schedule : ∀ ps w,
  filter (λ e, is_get e = true) (trace (deliver net schedule ps w).1)
  = filter (λ e, is_get e = true) (trace w).
Proof.
  induction schedule as [|i schedule IH]; intros ps w; simpl; [reflexivity|].
  destruct (ps !! i) as [[v|e|rq]|]; try apply IH.
  unfold requestFont_resume. destruct (net _ _) as [body|]; rewrite IH; [|reflexivity].
  simpl. rewrite filter_app. simpl. apply app_nil_r.
Qed.

Hypothesis start_requests : ∀ x w,
  filter (λ e, is_get e = true) (trace (start x w).1)
  = filter (λ e, is_get e = true) (trace w) ++ option_list (request_of (start x w).2).

Lemma start_each_requests xs w0 : ∀ w,
  disk w = disk w0 →
  filter (λ e, is_get e = true) (trace (start_each start xs w).1)
  = filter (λ e, is_get e = true) (trace w)
    ++ omap (λ x, request_of (start x w0).2) xs.
Proof.
  induction xs as [|x xs IH]; intros w Hw; simpl; [now rewrite app_nil_r|].
  pose proof (start_requests x w) as Hx. pose proof (start_disk x w) as Hd.
  rewrite (start_pure x w w0 Hw) in Hx.
  destruct (start x w) as [w1 p] eqn:Hstart. simpl in Hx, Hd.
  assert (disk w1 = disk w0) as Hw1 by congruence.
  pose proof (IH w1 Hw1) as Hxs.
  destruct (start_each start xs w1) as [w2 ps]. simpl in *.
  rewrite Hxs, Hx, <- app_assoc. f_equal.
  now destruct (request_of (start x w0).2).
Qed.

Lemma for_await_requests schedule xs w :
  filter (λ e, is_get e = true) (trace (for_await net schedule start xs w).1)
  = filter (λ e, is_get e = true) (trace w)
    ++ omap (λ x, request_of (start x w).2) xs.
Proof.
  unfold for_await. pose proof (start_each_requests xs w w eq_refl) as Hstart.
  destruct (start_each start xs w) as [w1 promises].
  pose proof (deliver_requests schedule promises w1) as Hdeliver.
  destruct (deliver net schedule promises w1) as [w2 settled]. simpl in *.
  congruence.
Qed.

End Loop.

Lemma requestFont_start_requests o format wrap rs w :
  filter (λ e, is_get e = true) (trace (requestFont_start o rs format wrap w).1)
  = filter (λ e, is_get e = true) (trace w)
    ++ option_list (request_of (requestFont_start o rs format wrap w).2).
Proof.
  unfold requestFont_start. destruct rs as [url|]; [|now rewrite app_nil_r].
  destruct (cache o).
  - unfold getFromCache.
    destruct (disk w !! cacheFile (getCacheKey url format)) as [[|c r]|]; simpl;
      rewrite ?filter_app; simpl; now rewrite ?app_nil_r.
  - simpl. now rewrite filter_app.
Qed.

Lemma requestFontFile_start_requests o fontUrl w :
  filter (λ e, is_get e = true) (trace (requestFontFile_start o fontUrl w).1)
  = filter (λ e, is_get e = true) (trace w)
    ++ option_list (request_of (requestFontFile_start o fontUrl w).2).
Proof.
  unfold requestFontFile_start.
  destruct (startsWith _ _); [now rewrite app_nil_r|].
  destruct (match_suffix _ _); [apply requestFont_start_requests | now rewrite app_nil_r].
Qed.

(** What a reference waits for, if for anything. *)
Lemma requestFontFile_start_pending o fontUrl w rq :
  (requestFontFile_start o fontUrl w).2 = Pending rq →
  ∃ format, match_suffix (alternatives (formats o)) fontUrl = Some format
            ∧ rq = {| rq_url := fontUrl; rq_agent := formatAgents o !! format;
                      rq_key := getCacheKey fontUrl format; rq_wrap := Some format |}.
Proof.
  unfold requestFontFile_start. destruct (startsWith _ _); [discriminate|].
  destruct (match_suffix _ _) as [format|]; [|discriminate].
  intros Hrq. exists format. split; [reflexivity|].
  unfold requestFont_start in Hrq.
  destruct (if cache o then _ else _) as [w1 [[|c r]|]]; simpl in Hrq; congruence.
Qed.

(** X15.  What [requestFontFiles] returns holds, position by position,
    the value [requestFontFile] returns for that reference on its own,
    in whatever order the answers have arrived. *)
Theorem requestFontFiles_returned net schedule o fontUrls w fontsEncoded :
  (requestFontFiles net schedule o fontUrls w).2 = Returned fontsEncoded →
  Forall2 (λ fontUrl font, (requestFontFile net o fontUrl w).2 = Returned font)
          fontUrls fontsEncoded.
Proof.
  intros Hloop.
  apply (for_await_returned net (requestFontFile_start o)
           (requestFontFile_start_disk o) (requestFontFile_start_pure o)) in Hloop.
  eapply Forall2_impl; [exact Hloop|]. simpl.
  intros fontUrl font Hfont. now rewrite requestFontFile_outcome, Hfont.
Qed.

Lemma requestFontFiles_returned_witness :
  Forall2 (λ fontUrl font,
             (requestFontFile echo_net sample_options fontUrl empty_world).2
             = Returned font)
          ["http://x/f.woff2"; "http://x/g.woff"]
          [dataUri "woff2" "foo"; dataUri "woff" "foo"].
Proof.
  apply (requestFontFiles_returned echo_net [1; 0] sample_options).
  vm_compute. reflexivity.
Defined.

(** X16.  The requests of [requestFontFiles] go out in the order of the
    references, one for each reference that waits for an answer, before
    any answer is looked at: a URL referred to twice and not yet in the
    cache is requested twice. *)
Theorem requestFontFiles_requests net schedule o fontUrls w :
  filter (λ e, is_get e = true) (trace (requestFontFiles net schedule o fontUrls w).1)
  = filter (λ e, is_get e = true) (trace w)
    ++ omap (λ fontUrl, request_of (requestFontFile_start o fontUrl w).2) fontUrls.
Proof.
  apply for_await_requests;
    [ apply requestFontFile_start_disk | apply requestFontFile_start_pure
    | apply requestFontFile_start_requests ].
Qed.

(** X17.  With format names that are plain text to a regular
    expression, [requestFontFiles] never removes a cache file and never
    stores anything but what the service sent: whatever the order of the
    answers, a file of the cache directory is afterwards as it was
    before, or it is the cache file of one of the references and holds
    the body the service answered to that reference under the agent of
    its format. *)
Theorem requestFontFiles_disk net schedule o fontUrls w file :
  Forall (λ f, plain_name f = true) (formats o) →
  disk (requestFontFiles net schedule o fontUrls w).1 !! file = disk w !! file
  ∨ ∃ fontUrl format body,
      fontUrl ∈ fontUrls
      ∧ match_suffix (alternatives (formats o)) fontUrl = Some format
      ∧ file = cacheFile (getCacheKey fontUrl format)
      ∧ net fontUrl (formatAgents o !! format) = Some body
      ∧ disk (requestFontFiles net schedule o fontUrls w).1 !! file = Some body.
Proof.
  intros _.
  destruct (for_await_disk net (requestFontFile_start o)
              (requestFontFile_start_disk o) (requestFontFile_start_pure o)
              schedule fontUrls w file)
    as [Hsame | (fontUrl & rq & body & Hin & Hrq & Hnet & Hfile & Hbody)];
    [now left|].
  right. apply requestFontFile_start_pending in Hrq as (format & Hformat & ->).
  now exists fontUrl, format, body.
Qed.

Lemma requestFontFiles_disk_witness :
  ∃ fontUrl format body,
    fontUrl ∈ ["http://x/f.woff2"]
    ∧ match_suffix (alternatives (formats sample_options)) fontUrl = Some format
    ∧ cacheFile (getCacheKey "http://x/f.woff2" "woff2")
      = cacheFile (getCacheKey fontUrl format)
    ∧ echo_net fontUrl (formatAgents sample_options !! format) = Some body
    ∧ disk (requestFontFiles echo_net [0] sample_options ["http://x/f.woff2"]
              empty_world).1 !! cacheFile (getCacheKey "http://x/f.woff2" "woff2")
      = Some body.
Proof.
  assert (Forall (λ f, plain_name f = true) (formats sample_options)) as Hplain
    by (repeat constructor).
  assert (disk (requestFontFiles echo_net [0] sample_options ["http://x/f.woff2"]
                  empty_world).1 !! cacheFile (getCacheKey "http://x/f.woff2" "woff2")
          = Some "foo") as Hstored by (vm_compute; reflexivity).
  destruct (requestFontFiles_disk echo_net [0] sample_options ["http://x/f.woff2"]
              empty_world (cacheFile (getCacheKey "http://x/f.woff2" "woff2")) Hplain)
    as [Hsame | Hwritten].
  - rewrite Hstored in Hsame.
    assert (disk empty_world = ∅) as Hempty by reflexivity.
    rewrite Hempty, lookup_empty in Hsame. discriminate Hsame.
  - exact Hwritten.
Defined.

(** ** Inlining a stylesheet *)

(** X18.  [encodeFonts] has no partial result: a reference whose fetch
    fails keeps it from returning a text, in whatever order the answers
    arrive; and when the references before that one resolve, its error
    is the one thrown. *)
Theorem encodeFonts_first_failure net schedule o css w before fontUrl after e :
  encode o = true →
  references css = before ++ fontUrl :: after →
  (requestFontFile net o fontUrl w).2 = Threw e →
  failed (encodeFonts net schedule o css w).2
  ∧ (fair (S (length before)) schedule →
     Forall (λ u, ∃ font, (requestFontFile net o u w).2 = Returned font) before →
     (encodeFonts net schedule o css w).2 = Threw e).
Proof.
  intros Hencode Hrefs Hfails.
  rewrite requestFontFile_outcome in Hfails. apply outcome_threw in Hfails.
  destruct (requestFontFiles_lookup net schedule o (before ++ fontUrl :: after) w)
    as (settled & Hfiles & Hlook).
  assert ((encodeFonts net schedule o css w).2
          = match await_each settled with
            | Returned fonts' =>
                Returned (replace_each css (before ++ fontUrl :: after) fonts')
            | Threw e => Threw e
            | Hung => Hung
            end) as ->.
  { rewrite encodeFonts_references, Hrefs by assumption.
    destruct (requestFontFiles _ _ _ _ _) as [w1 outcome]. simpl in Hfiles.
    subst outcome. now destruct before, (await_each settled). }
  split.
  - assert (∃ p, settled !! length before = Some p ∧ ∀ v, p ≠ Fulfilled v)
      as (p & Hp & Hnot).
    { rewrite Hlook, list_lookup_middle by reflexivity. simpl.
      eexists. split; [reflexivity|]. intros v.
      destruct (bool_decide _); [rewrite Hfails; discriminate|].
      simpl. intros Hv. rewrite Hv in Hfails. discriminate. }
    pose proof (await_each_failed settled _ _ Hp Hnot) as Hloop.
    now destruct (await_each settled).
  - intros Hfair Hbefore.
    destruct (resolved_values net o w before Hbefore) as [fonts' Hfonts].
    rewrite (await_each_first_rejected settled fonts' e); [reflexivity | |].
    + intros i font Hi.
      destruct (Forall2_lookup_r _ _ _ _ _ Hfonts Hi) as (u & Hu & Hanswer).
      rewrite Hlook, lookup_app_l, Hu by (now apply lookup_lt_Some in Hu). simpl.
      rewrite bool_decide_eq_true_2, Hanswer; [reflexivity|].
      apply Hfair. apply lookup_lt_Some in Hu. lia.
    + rewrite <- (Forall2_length _ _ _ Hfonts).
      rewrite Hlook, list_lookup_middle by reflexivity. simpl.
      rewrite bool_decide_eq_true_2, Hfails; [reflexivity|].
      apply Hfair. lia.
Qed.

Lemma encodeFonts_first_failure_witness :
  (encodeFonts sample_net [1; 0] sample_options
     "a{url(http://x/f.woff2)} b{url(http://x/g.woff2)}" empty_world).2
  = Threw (RequestFailed "http://x/g.woff2").
Proof.
  assert (references "a{url(http://x/f.woff2)} b{url(http://x/g.woff2)}"
          = ["http://x/f.woff2"] ++ "http://x/g.woff2" :: []) as Hrefs
    by (vm_compute; reflexivity).
  assert ((requestFontFile sample_net sample_options "http://x/g.woff2" empty_world).2
          = Threw (RequestFailed "http://x/g.woff2")) as Hfails
    by (vm_compute; reflexivity).
  refine (proj2 (encodeFonts_first_failure sample_net [1; 0] sample_options _
                   empty_world _ _ _ _ eq_refl Hrefs Hfails) _ _).
  - intros i Hi. simpl in Hi.
    destruct i as [|[|i]]; [right; left | left | lia].
  - repeat constructor. eexists. vm_compute. reflexivity.
Defined.

(** X19.  Whatever the order of the answers, a text that [encodeFonts]
    returns with [encode] switched on is the given text in which the
    references, in their order and each at its leftmost occurrence at
    the time, have been replaced by the values [requestFontFile] returns
    for them one by one; and the text had a reference. *)
Theorem encodeFonts_returned net schedule o css w css' :
  encode o = true →
  (encodeFonts net schedule o css w).2 = Returned css' →
  references css ≠ []
  ∧ ∃ fontsEncoded,
      Forall2 (λ fontUrl font, (requestFontFile net o fontUrl w).2 = Returned font)
              (references css) fontsEncoded
      ∧ css' = replace_each css (references css) fontsEncoded.
Proof.
  intros Hencode. rewrite encodeFonts_references by assumption.
  destruct (references css) as [|u us] eqn:Hrefs; [discriminate|].
  pose proof (for_await_returned net (requestFontFile_start o)
                (requestFontFile_start_disk o) (requestFontFile_start_pure o)
                schedule (u :: us) w) as Hloop.
  fold (requestFontFiles net schedule o (u :: us) w) in Hloop.
  destruct (requestFontFiles net schedule o (u :: us) w) as [w1 [fonts'|e|]];
    try discriminate.
  simpl. intros [= <-]. split; [discriminate|].
  exists fonts'. split; [|reflexivity].
  eapply Forall2_impl; [exact (Hloop fonts' eq_refl)|]. simpl.
  intros fontUrl font Hfont. now rewrite requestFontFile_outcome, Hfont.
Qed.

Lemma encodeFonts_returned_witness :
  ∃ fontsEncoded,
    Forall2 (λ fontUrl font,
               (requestFontFile echo_net sample_options fontUrl empty_world).2
               = Returned font)
            (references "a{url(http://x/f.woff2)} b{url(http://x/g.woff)}") fontsEncoded
    ∧ "a{url(" +:+ dataUri "woff2" "foo" +:+ ")} b{url(" +:+ dataUri "woff" "foo" +:+ ")}"
      = replace_each "a{url(http://x/f.woff2)} b{url(http://x/g.woff)}"
          (references "a{url(http://x/f.woff2)} b{url(http://x/g.woff)}") fontsEncoded.
Proof.
  apply (encodeFonts_returned echo_net [1; 0] sample_options
           "a{url(http://x/f.woff2)} b{url(http://x/g.woff)}" empty_world);
    vm_compute; reflexivity.
Defined.

(** ** The references of a stylesheet *)

Lemma lazy_tail_shape : ∀ t x,
  UrlRegex.lazy_tail t = Some x →
  included ")"%char x = false
  ∧ all_units (λ a, negb (UrlRegex.is_line_terminator a)) x = true.
Proof.
  induction t as [|c t IH]; intros x; simpl; [discriminate|].
  case_bool_decide as Hc; [now intros [= <-]|].
  destruct (UrlRegex.is_line_terminator c) eqn:Hlt; [discriminate|].
  destruct (UrlRegex.lazy_tail t) as [y|]; [|discriminate].
  intros [= <-]. destruct (IH y eq_refl) as [Hparen Hline]. simpl.
  rewrite decide_False by assumption. now rewrite Hlt, Hline.
Qed.

Lemma match_here_shape s cap :
  UrlRegex.match_here s = Some cap →
  ∃ opening c tail rest,
    s = opening +:+ cap +:+ String ")" rest
    ∧ UrlRegex.after_url_paren (opening +:+ cap) = Some cap
    ∧ cap = String c tail
    ∧ included ")"%char tail = false
    ∧ all_units (λ a, negb (UrlRegex.is_line_terminator a)) cap = true.
Proof.
  unfold UrlRegex.match_here, UrlRegex.after_url_paren.
  destruct s as [|a [|b [|c [|d [|e t]]]]]; try discriminate.
  - now destruct (_ && _).
  - destruct (_ && _) eqn:Hurl; [|discriminate].
    destruct (UrlRegex.is_line_terminator e) eqn:Hlt; [discriminate|].
    destruct (UrlRegex.lazy_tail t) as [x|] eqn:Htail; [|discriminate].
    intros [= <-].
    destruct (lazy_tail_stable t x Htail) as [[rest ->] _].
    destruct (lazy_tail_shape _ x Htail) as [Hparen Hline].
    exists (String a (String b (String c (String d "")))), e, x, rest.
    split; [reflexivity|]. split; [simpl; now rewrite Hurl|].
    split; [reflexivity|]. split; [assumption|].
    simpl. now rewrite Hlt, Hline.
Qed.

Lemma scan_capture_matched : ∀ css skip cap,
  cap ∈ UrlRegex.captures (UrlRegex.scan skip css) →
  ∃ before rest, css = before +:+ rest ∧ UrlRegex.match_here rest = Some cap.
Proof.
  induction css as [|c css IH]; intros skip cap; simpl; [now intros ?%elem_of_nil|].
  assert (∀ k, cap ∈ UrlRegex.captures (UrlRegex.scan k css) →
               ∃ before rest, String c css = before +:+ rest
                              ∧ UrlRegex.match_here rest = Some cap) as Hlater.
  { intros k (before & rest & -> & Hrest)%IH. now exists (String c before), rest. }
  destruct skip as [|k]; [|apply Hlater].
  destruct (UrlRegex.match_here (String c css)) as [cap'|] eqn:Hhere; simpl.
  - intros [->|Hin]%elem_of_cons; [now exists "", (String c css) | exact (Hlater _ Hin)].
  - apply Hlater.
Qed.

(** X20.  Every reference that [encodeFonts] takes from a text stands
    in the text between [url(], in small or capital letters, and a
    closing parenthesis; it is not empty, runs over no line break, and
    holds no closing parenthesis after its first code unit.  Quotes
    around the URL are part of the reference. *)
Theorem references_shape css fontUrl :
  fontUrl ∈ references css →
  ∃ before opening c tail after,
    css = before +:+ opening +:+ fontUrl +:+ String ")" after
    ∧ UrlRegex.after_url_paren (opening +:+ fontUrl) = Some fontUrl
    ∧ fontUrl = String c tail
    ∧ included ")"%char tail = false
    ∧ all_units (λ a, negb (UrlRegex.is_line_terminator a)) fontUrl = true.
Proof.
  intros (before & rest & -> & Hhere)%scan_capture_matched.
  destruct (match_here_shape rest fontUrl Hhere)
    as (opening & c & tail & after & -> & Hopening & Hcap & Hparen & Hline).
  now exists before, opening, c, tail, after.
Qed.

Lemma references_shape_witness :
  ∃ before opening c tail after,
    "a{src:URL('f.woff2') format('woff2')}"
    = before +:+ opening +:+ "'f.woff2'" +:+ String ")" after
    ∧ UrlRegex.after_url_paren (opening +:+ "'f.woff2'") = Some "'f.woff2'"
    ∧ "'f.woff2'" = String c tail
    ∧ included ")"%char tail = false
    ∧ all_units (λ a, negb (UrlRegex.is_line_terminator a)) "'f.woff2'" = true.
Proof.
  apply references_shape.
  assert (references "a{src:URL('f.woff2') format('woff2')}" = ["'f.woff2'"]) as ->
    by (vm_compute; reflexivity).
  apply list_elem_of_here.
Defined.

(** ** The configuration file *)

Lemma JsValue_nested_ind (P : JsValue → Prop) :
  P JUndefined → P JNull → (∀ b, P (JBool b)) → (∀ n, P (JNum n)) → (∀ s, P (JStr s)) →
  (∀ items, Forall P items → P (JArr items)) →
  (∀ fields, Forall (λ kv, P kv.2) fields → P (JObj fields)) →
  ∀ v, P v.
Proof.
  intros Hundefined Hnull Hbool Hnum Hstr Harr Hobj.
  fix IH 1. intros [| |b|n|s|items|fields].
  - exact Hundefined.
  - exact Hnull.
  - apply Hbool.
  - apply Hnum.
  - apply Hstr.
  - apply Harr. induction items as [|v items IHitems]; constructor; [apply IH | assumption].
  - apply Hobj. induction fields as [|[key v] fields IHfields]; constructor;
      [apply IH | assumption].
Qed.

Lemma truthy_defined v : truthy v = true → v ≠ JUndefined.
Proof. now destruct v. Qed.

Lemma getConfig_absent v : has_config v = false → getConfig v = JUndefined.
Proof.
  induction v as [| | | | |items IH|fields IH] using JsValue_nested_ind; try reflexivity.
  - simpl. induction IH as [|v items Hv _ IHitems]; [reflexivity|].
    intros [Hhere Hlater]%orb_false_iff.
    rewrite (Hv Hhere). simpl. destruct (is_nonempty_object v); now apply IHitems.
  - simpl. induction IH as [|[key v] fields Hv _ IHfields]; [reflexivity|].
    intros [[Hkey Hhere]%orb_false_iff Hlater]%orb_false_iff.
    apply bool_decide_eq_false in Hkey. rewrite decide_False by assumption.
    simpl in Hv. rewrite (Hv Hhere). simpl.
    destruct (is_nonempty_object v); now apply IHfields.
Qed.

(** X21.  What [getConfig] finds is in the file: a result other than
    [undefined] is the value of a key named after the plugin, in the
    given object or in an object or array nested in it at any depth. *)
Theorem getConfig_found fileOptions :
  getConfig fileOptions ≠ JUndefined →
  holds_config fileOptions (getConfig fileOptions).
Proof.
  induction fileOptions as [| | | | |items IH|fields IH] using JsValue_nested_ind;
    try (intros Hdefined; now destruct Hdefined).
  - simpl. induction IH as [|v items Hv _ IHitems]; [intros Hdefined; now destruct Hdefined|].
    assert (∀ x, holds_config (JArr items) x → holds_config (JArr (v :: items)) x) as Hlater.
    { intros x Hx. inversion Hx as [| |? v' ? Hin Hv']; subst.
      apply (holds_in_item _ v'); [now apply list_elem_of_further | assumption]. }
    destruct (is_nonempty_object v); [|intros Hd; now apply Hlater, IHitems].
    destruct (truthy (getConfig v)) eqn:Htruthy; [|intros Hd; now apply Hlater, IHitems].
    intros _. apply (holds_in_item _ v); [apply list_elem_of_here|].
    now apply Hv, truthy_defined.
  - simpl. induction IH as [|[key v] fields Hv _ IHfields];
      [intros Hdefined; now destruct Hdefined|].
    assert (∀ x, holds_config (JObj fields) x → holds_config (JObj ((key, v) :: fields)) x)
      as Hlater.
    { intros x Hx. inversion Hx as [? ? Hin|? key' v' ? Hin Hv'|]; subst.
      - apply holds_here. now apply list_elem_of_further.
      - apply (holds_in_field _ key' v'); [now apply list_elem_of_further | assumption]. }
    destruct (decide (key = pluginName)) as [->|Hkey].
    { intros _. apply holds_here, list_elem_of_here. }
    destruct (is_nonempty_object v); [|intros Hd; now apply Hlater, IHfields].
    destruct (truthy (getConfig v)) eqn:Htruthy; [|intros Hd; now apply Hlater, IHfields].
    intros _. apply (holds_in_field _ key v); [apply list_elem_of_here|].
    now apply Hv, truthy_defined.
Qed.

Lemma getConfig_found_witness :
  holds_config (JArr [JObj [("config", JObj [(pluginName, JObj [("cache", JBool true)])])]])
               (JObj [("cache", JBool true)]).
Proof.
  apply (getConfig_found
           (JArr [JObj [("config", JObj [(pluginName, JObj [("cache", JBool true)])])]])).
  vm_compute. discriminate.
Defined.

(** X22.  The key of the plugin at the top of an object is found, and
    its value returned as it is (be it [false] or [null]), when the
    fields before it do not hold the key at any depth: the dependency
    tables of a [package.json] are searched and passed over. *)
Theorem getConfig_top_level before config after :
  Forall (λ kv, kv.1 ≠ pluginName ∧ has_config kv.2 = false) before →
  getConfig (JObj (before ++ (pluginName, config) :: after)) = config.
Proof.
  intros Hbefore. simpl.
  induction Hbefore as [|[key v] before [Hkey Hv] _ IH]; simpl.
  - first [reflexivity | now rewrite decide_True by reflexivity].
  - simpl in Hkey, Hv. rewrite decide_False by assumption.
    rewrite (getConfig_absent v Hv). simpl.
    now destruct (is_nonempty_object v).
Qed.

Lemma getConfig_top_level_witness :
  getConfig package_json = JObj [("cache", JBool false)].
Proof.
  apply (getConfig_top_level
           [("name", JStr "app"); ("devDependencies", JObj [("webpack", JStr "^4.0.0")])]
           (JObj [("cache", JBool false)])
           [("config", JObj [(pluginName, JObj [("cache", JBool true)])])]).
  repeat constructor; simpl; discriminate.
Defined.

(** ** The constructor, given a file *)

(** X23.  Given the path of a well-formed file, the constructor resolves
    the options by the same merge one level deep as for an object, the
    object being what [getConfig] finds in the file; a file that names
    the plugin nowhere resolves to the defaults. *)
Theorem constructor_from_file env path file fileOptions :
  readFile env path = Some file →
  decode_file env path file = Some fileOptions →
  fileOptions ≠ JNull → fileOptions ≠ JUndefined →
  ∃ resolved,
    constructor env (JStr path) = inr resolved
    ∧ (∀ key, resolved !! key
              = match own_property (getConfig fileOptions) key with
                | Some v => Some v
                | None => own_property defaultOptions key
                end)
    ∧ (has_config fileOptions = false →
       ∀ key, resolved !! key = own_property defaultOptions key).
Proof.
  intros Hfile Hdecode Hnull Hundefined.
  exists (Object_assign ∅ [defaultOptions; getConfig fileOptions]).
  split; [|split].
  - unfold constructor, readFileSync, decode_file in *. rewrite Hfile. simpl.
    assert ((if is_neon path
             then parse_with "neon.decode" (neon_decode env) (replace_crlf file)
             else parse_with "JSON.parse" (JSON_parse env) file) = inr fileOptions) as ->.
    { unfold parse_with. destruct (is_neon path); now rewrite Hdecode. }
    simpl. now destruct fileOptions.
  - intros key. apply Object_assign_lookup.
  - intros Habsent key. rewrite Object_assign_lookup.
    now rewrite (getConfig_absent fileOptions Habsent).
Qed.

Lemma constructor_from_file_witness :
  ∃ resolved,
    constructor package_env (JStr "/app/package.json") = inr resolved
    ∧ resolved !! "cache" = Some (JBool false)
    ∧ resolved !! "encode" = Some (JBool true).
Proof.
  destruct (constructor_from_file package_env "/app/package.json" "{...}" package_json)
    as (resolved & Hctor & Hkeys & _).
  - reflexivity.
  - reflexivity.
  - discriminate.
  - discriminate.
  - exists resolved. split; [exact Hctor|].
    split; [exact (Hkeys "cache") | exact (Hkeys "encode")].
Defined.

(** X24.  Given no argument, or one that is neither an object nor a
    string, the constructor does what it does given the path of the
    nearest [package.json]; where there is none, it throws on reading a
    file without a name. *)
Theorem constructor_no_argument env options :
  typeof options = TOther →
  (∀ path, pkgUp_sync env = Some path → is_neon path = false →
     constructor env options = constructor env (JStr path))
  ∧ (pkgUp_sync env = None →
     constructor env options = inl (InvalidArgType "fs.readFileSync")).
Proof.
  intros Htype. split.
  - intros path Hpath Hjson. unfold constructor.
    destruct options; try discriminate Htype; now rewrite Hpath, Hjson.
  - intros Hnone. unfold constructor.
    destruct options; try discriminate Htype; now rewrite Hnone.
Qed.

Lemma constructor_no_argument_witness :
  constructor package_env (JBool true) = constructor package_env (JStr "/app/package.json")
  ∧ constructor no_files JUndefined = inl (InvalidArgType "fs.readFileSync").
Proof.
  split.
  - apply (proj1 (constructor_no_argument package_env (JBool true) eq_refl)
             "/app/package.json"); reflexivity.
  - apply (proj2 (constructor_no_argument no_files JUndefined eq_refl)). reflexivity.
Defined.

(** X25.  A file whose text parses to [null] makes the constructor
    throw, on the keys of [null], where the first version of the
    constructor resolves a JSON file of that kind to its defaults and
    throws, on the property of [null], for a NEON file. *)
Theorem constructor_null_file env dirname path file :
  readFile env path = Some file →
  decode_file env path file = Some JNull →
  constructor env (JStr path) = inl (InvalidArgType "Object.keys")
  ∧ Legacy.constructor env dirname (JStr path)
    = if is_neon path then inl (NullProperty Legacy.PLUGIN_NAME)
      else inr (Object_assign ∅ [Legacy.defaultOptions]).
Proof.
  intros Hfile Hdecode.
  unfold constructor, Legacy.constructor, readFileSync, decode_file in *.
  rewrite Hfile. simpl. unfold parse_with.
  destruct (is_neon path); now rewrite Hdecode.
Qed.

Lemma constructor_null_file_witness :
  constructor null_env (JStr "fonts.json") = inl (InvalidArgType "Object.keys")
  ∧ Legacy.constructor null_env "" (JStr "fonts.json")
    = inr (Object_assign ∅ [Legacy.defaultOptions]).
Proof.
  exact (constructor_null_file null_env "" "fonts.json" "null" eq_refl eq_refl).
Defined.

(** X26.  The first version of the constructor, given no argument,
    reads the key named after it at the top of the [package.json] next
    to the module and nowhere deeper; a value that is missing or falsy
    there resolves to the defaults of that version, any other value is
    merged over them one level deep. *)
Theorem Legacy_constructor_no_argument env dirname options file fileOptions :
  typeof options = TOther →
  readFile env (dirname +:+ "/package.json") = Some file →
  JSON_parse env file = Some fileOptions →
  fileOptions ≠ JNull → fileOptions ≠ JUndefined →
  ∃ resolved,
    Legacy.constructor env dirname options = inr resolved
    ∧ ∀ key, resolved !! key
             = match own_property fileOptions Legacy.PLUGIN_NAME with
               | Some config =>
                   match (if truthy config then own_property config key else None) with
                   | Some v => Some v
                   | None => own_property Legacy.defaultOptions key
                   end
               | None => own_property Legacy.defaultOptions key
               end.
Proof.
  intros Htype Hfile Hparse Hnull Hundefined.
  set (config := default JUndefined (own_property fileOptions Legacy.PLUGIN_NAME)).
  exists (Object_assign ∅ [Legacy.defaultOptions; if truthy config then config else JObj []]).
  split.
  - unfold Legacy.constructor, readFileSync, parse_with.
    destruct options; try discriminate Htype;
      rewrite Hfile; simpl; rewrite Hparse; simpl;
      now destruct fileOptions.
  - intros key. rewrite Object_assign_lookup. subst config.
    destruct (own_property fileOptions Legacy.PLUGIN_NAME) as [config|]; simpl; [|reflexivity].
    now destruct (truthy config).
Qed.

Lemma Legacy_constructor_no_argument_witness :
  ∃ resolved,
    Legacy.constructor package_env "/app" JUndefined = inr resolved
    ∧ resolved !! "formats" = Some (strs ["eot"; "ttf"; "woff"; "woff2"]).
Proof.
  destruct (Legacy_constructor_no_argument package_env "/app" JUndefined "{...}" package_json)
    as (resolved & Hctor & Hkeys).
  - reflexivity.
  - reflexivity.
  - reflexivity.
  - discriminate.
  - discriminate.
  - exists resolved. split; [exact Hctor|]. exact (Hkeys "formats").
Defined.

(** ** The hooks of [apply] *)



Lemma encode_each_frame net o : ∀ files_left schedules w b,
  let r := encode_each net schedules o files_left w b in
  files r.1.2 = files b
  ∧ chunk_files r.1.2 = chunk_files b
  ∧ (∀ name, name ∉ files_left → assets r.1.2 !! name = assets b !! name)
  ∧ (r.2 = Returned tt → ∀ file, file ∈ files_left → is_Some (assets r.1.2 !! file)).
Proof.
  induction files_left as [|file files_left IH]; intros schedules w b; simpl.
  - repeat split; try reflexivity. intros _ file Hin. now apply elem_of_nil in Hin.
  - destruct (assets b !! file) as [css|] eqn:Hfile; simpl;
      [|repeat split; try reflexivity; discriminate].
    destruct (encodeFonts net (hd [] schedules) o css w) as [w1 [css'|e|]]; simpl;
      [|repeat split; try reflexivity; discriminate..].
    destruct (IH (tl schedules) w1
                {| files := files b; assets := <[file := css']> (assets b);
                   chunk_files := chunk_files b |})
      as (Hfiles & Hchunk & Hframe & Hthere). simpl in *.
    split; [exact Hfiles|]. split; [exact Hchunk|]. split.
    + intros name Hname. rewrite not_elem_of_cons in Hname. destruct Hname as [Hne Hname].
      rewrite (Hframe name Hname). now apply lookup_insert_ne.
    + intros Hreturned file' [->|Hin]%elem_of_cons; [|now apply Hthere].
      destruct (decide (file ∈ files_left)) as [Hlater|Hlast]; [now apply Hthere|].
      rewrite (Hframe _ Hlast), lookup_insert_eq. eauto.
Qed.

(** X28.  The [optimizeAssets] callback touches the stylesheets and the
    file of the chunk and nothing else: whether it calls back or not,
    [files] is as before, the chunk's files are [files], every asset
    that is neither listed in [files] nor the chunk's first file is as
    before, and the chunk's first file is no asset any more unless it
    is listed in [files]; when it calls back, every file listed is an
    asset. *)
Theorem optimizeAssets_frame net schedules o w b :
  files (optimizeAssets net schedules o w b).1.2 = files b
  ∧ chunk_files (optimizeAssets net schedules o w b).1.2 = files b
  ∧ (∀ name, name ∉ files b → name ≠ rendered_file b →
       assets (optimizeAssets net schedules o w b).1.2 !! name = assets b !! name)
  ∧ (rendered_file b ∉ files b →
     assets (optimizeAssets net schedules o w b).1.2 !! rendered_file b = None)
  ∧ ((optimizeAssets net schedules o w b).2 = Returned tt →
     ∀ file, file ∈ files b →
       is_Some (assets (optimizeAssets net schedules o w b).1.2 !! file)).
Proof.
  unfold optimizeAssets.
  destruct (encode_each_frame net o (files b) schedules w
              {| files := files b; assets := delete (rendered_file b) (assets b);
                 chunk_files := files b |})
    as (Hfiles & Hchunk & Hframe & Hthere). simpl in *.
  split; [exact Hfiles|]. split; [exact Hchunk|]. split; [|split; [|exact Hthere]].
  - intros name Hname Hne. rewrite (Hframe name Hname). now apply lookup_delete_ne.
  - intros Hrendered. rewrite (Hframe _ Hrendered). apply lookup_delete_eq.
Qed.

Lemma encode_each_off net o : ∀ files_left schedules w b,
  encode o = false →
  Forall (λ file, is_Some (assets b !! file)) files_left →
  encode_each net schedules o files_left w b = (w, b, Returned tt).
Proof.
  induction files_left as [|file files_left IH]; intros schedules w b Hoff Hthere;
    simpl; [reflexivity|].
  apply Forall_cons in Hthere as [[css Hfile] Hthere]. rewrite Hfile.
  unfold encodeFonts. rewrite Hoff.
  rewrite insert_id by assumption.
  destruct b as [fs as' cf]. simpl in *. now apply IH.
Qed.

(** X29.  With [encode] switched off the [optimizeAssets] callback
    removes the chunk's first file from the assets, hands [files] to the
    chunk, leaves every stylesheet as [make] stored it, touches neither
    cache nor network, and calls back. *)
Theorem optimizeAssets_encode_off net schedules o w b :
  encode o = false →
  Forall (λ file, file ≠ rendered_file b ∧ is_Some (assets b !! file)) (files b) →
  optimizeAssets net schedules o w b
  = (w, {| files := files b;
           assets := delete (rendered_file b) (assets b);
           chunk_files := files b |}, Returned tt).
Proof.
  intros Hoff Hthere. unfold optimizeAssets. apply encode_each_off; [assumption|].
  simpl. eapply Forall_impl; [exact Hthere|]. simpl.
  intros file [Hne Hfile]. now rewrite lookup_delete_ne.
Qed.

Lemma optimizeAssets_encode_off_witness :
  optimizeAssets down_net [] plain_options empty_world sample_build
  = (empty_world,
     {| files := ["woff2.css"];
        assets := delete "google-fonts.js" (assets sample_build);
        chunk_files := ["woff2.css"] |}, Returned tt).
Proof.
  apply (optimizeAssets_encode_off down_net [] plain_options empty_world sample_build).
  - reflexivity.
  - repeat constructor; [discriminate|].
    exists "a{src:url(http://x/f.woff2)}". vm_compute. reflexivity.
Defined.
